(** * Evaluation engine of Haystack (evaluation-engine.js)

    A shallow embedding of the evaluation engine: the filter pipeline, the
    selection policy with its Mulberry32-driven Fisher-Yates shuffle, the
    grid allocator, the session operations and the localStorage adapter.

    Modelling conventions.
    - JavaScript objects are references: candidate records live in a heap
      [Heap] (a list indexed by [loc]); [Object.assign({}, c, ...)] allocates
      a fresh cell, an assignment [c.f = v] overwrites the cell in place.
    - The numbers the engine computes with (seeds, timestamps, indices, grid
      coordinates, counts) are integers; they are modelled in [Z].  All of
      them stay below 2^53, where doubles represent integers exactly.  A
      record field may also hold a non-integer number (see [jval]).
    - A JavaScript [Map] or [Set] is an association list in insertion order
      (the order [forEach], [entries()] and [Array.from] observe).
    - [Date.now()] is an argument [now] (the reads of one operation share
      it); [Math.random()] draws are explicit arguments.
    - localStorage holds at most one parsed session record under the key
      'haystack_eval_session'; JSON.stringify/parse is the identity on the
      data the engine stores (numbers, strings, null, absent fields). *)

From Stdlib Require Import String Ascii ZArith List Bool Lia Permutation.
From Stdlib Require DecimalString.
From Stdlib Require Finite.
From Stdlib Require Import Sorted.
Import ListNotations.
Open Scope Z_scope.

(** ** JavaScript values *)

(** The values a record field may hold: [undefined], [null], a string, a
    number or a boolean.  A number is either an integer of magnitude below
    10^21, which ToString writes as a plain integer numeral ([JNum]), or any
    other finite number, held as the numeral ToString writes for it
    ([JNumeral]): a non-integer such as 50.5 ("50.5") or 1.5e-7 ("1.5e-7"),
    or a large integer such as 1e21 ("1e+21").  NaN and the infinities,
    which JSON cannot carry, are left out. *)
Inductive jval : Type :=
  | JUndef
  | JNull
  | JStr (s : string)
  | JNum (z : Z)
  | JNumeral (numeral : string)
  | JBool (b : bool).

(** Strict equality [===] on these values. *)
Definition jval_eqb (a b : jval) : bool :=
  match a, b with
  | JUndef, JUndef => true
  | JNull, JNull => true
  | JStr s, JStr t => String.eqb s t
  | JNum x, JNum y => Z.eqb x y
  | JNumeral x, JNumeral y => String.eqb x y
  | JBool x, JBool y => Bool.eqb x y
  | _, _ => false
  end.

(** ** parseInt *)

(** StrWhiteSpaceChar restricted to 8-bit characters:
    TAB, LF, VT, FF, CR, SPACE and NO-BREAK SPACE. *)
Definition is_js_ws (c : ascii) : bool :=
  let n := nat_of_ascii c in
  (Nat.eqb n 9 || Nat.eqb n 10 || Nat.eqb n 11 || Nat.eqb n 12 ||
   Nat.eqb n 13 || Nat.eqb n 32 || Nat.eqb n 160)%bool.

Fixpoint trim_start (s : string) : string :=
  match s with
  | EmptyString => EmptyString
  | String c r => if is_js_ws c then trim_start r else s
  end.

(** The value of a digit in radix [radix] (10 or 16), if it is one. *)
Definition digit_value (radix : Z) (c : ascii) : option Z :=
  let n := Z.of_nat (nat_of_ascii c) in
  let d :=
    if (48 <=? n) && (n <=? 57) then Some (n - 48)
    else if (97 <=? n) && (n <=? 122) then Some (n - 87)
    else if (65 <=? n) && (n <=? 90) then Some (n - 55)
    else None in
  match d with
  | Some v => if v <? radix then Some v else None
  | None => None
  end.

(** Reads the longest prefix of digits; [acc] is the value so far and
    [seen] whether a digit has been read. *)
Fixpoint read_digits (radix : Z) (s : string) (acc : Z) (seen : bool)
  : option Z :=
  match s with
  | EmptyString => if seen then Some acc else None
  | String c r =>
      match digit_value radix c with
      | Some v => read_digits radix r (acc * radix + v) true
      | None => if seen then Some acc else None
      end
  end.

(** [parseInt(s)] on a string, with no radix argument: leading white space
    is skipped, an optional sign is read, a "0x"/"0X" prefix selects radix
    16, and the longest digit prefix is read.  [None] is NaN. *)
Definition parseInt_string (s0 : string) : option Z :=
  let s := trim_start s0 in
  let '(sign, s1) :=
    match s with
    | String "-"%char r => (-1, r)
    | String "+"%char r => (1, r)
    | _ => (1, s)
    end in
  let '(radix, s2) :=
    match s1 with
    | String "0"%char (String "x"%char r) => (16, r)
    | String "0"%char (String "X"%char r) => (16, r)
    | _ => (10, s1)
    end in
  option_map (fun v => sign * v) (read_digits radix s2 0 false).

(** [parseInt(v)] first converts [v] with ToString: "undefined", "null",
    "true" and "false" hold no digits, the plain numeral of an integer
    reads back as that integer, and any other number is read from its
    numeral (so 50.5 reads as 50). *)
Definition parseInt (v : jval) : option Z :=
  match v with
  | JStr s => parseInt_string s
  | JNum z => Some z
  | JNumeral s => parseInt_string s
  | JUndef | JNull | JBool _ => None
  end.

(** [String.prototype.trim() !== ''] : some character is not white space. *)
Fixpoint trim_nonempty (s : string) : bool :=
  match s with
  | EmptyString => false
  | String c r => if is_js_ws c then trim_nonempty r else true
  end.

(** ** Candidate records and the object heap *)

Record Candidate : Type := mkCandidate {
  ID_xA : string;
  Node_xA : string;
  Group_xA : jval;
  Rank_xB : jval;
  AI_Rank_xB : jval;
  Root1_xB : jval; Root2_xB : jval; Root3_xB : jval;
  Class1_xB : jval; Class2_xB : jval; Class3_xB : jval;
  gridRow : option Z;   (** [None]: the property is absent (undefined) *)
  gridCol : option Z
}.

Abbreviation loc := nat.
Definition Heap := list Candidate.

Definition blank_candidate : Candidate :=
  mkCandidate "" "" JUndef JUndef JUndef JUndef JUndef JUndef
              JUndef JUndef JUndef None None.

Definition deref (h : Heap) (l : loc) : Candidate := nth l h blank_candidate.

(** [Object.assign({}, c, ...)]: a fresh object. *)
Definition alloc (h : Heap) (c : Candidate) : Heap * loc :=
  (app h [c], length h).

(** A JavaScript array write [a[i] = x] for an index inside the array. *)
Fixpoint list_set {A} (l : list A) (i : nat) (x : A) : list A :=
  match l, i with
  | [], _ => []
  | _ :: r, O => x :: r
  | y :: r, S i' => y :: list_set r i' x
  end.

Definition write (h : Heap) (l : loc) (c : Candidate) : Heap := list_set h l c.

Definition with_grid_pos (c : Candidate) (r k : option Z) : Candidate :=
  {| ID_xA := ID_xA c; Node_xA := Node_xA c; Group_xA := Group_xA c;
     Rank_xB := Rank_xB c; AI_Rank_xB := AI_Rank_xB c;
     Root1_xB := Root1_xB c; Root2_xB := Root2_xB c; Root3_xB := Root3_xB c;
     Class1_xB := Class1_xB c; Class2_xB := Class2_xB c;
     Class3_xB := Class3_xB c; gridRow := r; gridCol := k |}.

(** ** Filter pipeline *)

(** [c.Rank_xB === '' || c.Rank_xB === undefined || c.Rank_xB === null] *)
Definition is_empty_val (v : jval) : bool :=
  match v with
  | JStr EmptyString | JUndef | JNull => true
  | _ => false
  end.

Definition applyGroupFilter (h : Heap) (candidates : list loc)
    (groupFilter : option (list jval)) : list loc :=
  match groupFilter with
  | None | Some [] => candidates
  | Some groups =>
      filter (fun c => existsb (jval_eqb (Group_xA (deref h c))) groups)
        candidates
  end.

Definition applyRankFilter (h : Heap) (candidates : list loc)
    (rankFilter : string) : list loc :=
  if String.eqb rankFilter "unranked" then
    filter (fun c => is_empty_val (Rank_xB (deref h c))) candidates
  else if String.eqb rankFilter "ranked" then
    filter (fun c => negb (is_empty_val (Rank_xB (deref h c)))) candidates
  else candidates.

(** The score threshold object [{ min, max }]; [None] is an absent field. *)
Record Threshold : Type := mkThreshold { th_min : option Z; th_max : option Z }.

(** The predicate of the [filter] callback of [applyAIScoreThreshold]. *)
Definition ai_threshold_keep (min max : Z) (aiRank : jval) : bool :=
  let isFullRange := (min =? 0) && (max =? 100) in
  if is_empty_val aiRank then isFullRange
  else match parseInt aiRank with
       | Some value => (min <=? value) && (value <=? max)
       | None => false
       end.

(** [threshold = null] keeps every candidate. *)
Definition applyAIScoreThreshold (h : Heap) (candidates : list loc)
    (threshold : option Threshold) : list loc :=
  match threshold with
  | None => candidates
  | Some th =>
      let min := match th_min th with Some m => m | None => 0 end in
      let max := match th_max th with Some m => m | None => 100 end in
      filter (fun c => ai_threshold_keep min max (AI_Rank_xB (deref h c)))
        candidates
  end.

(** ** Selection policy *)

(** 32-bit views of a number (ToUint32 and ToInt32) and the operators of
    [mulberry32] on them. *)
Definition two32 : Z := 4294967296.
Definition u32 (z : Z) : Z := z mod two32.
Definition i32 (z : Z) : Z :=
  let u := u32 z in if u <? 2147483648 then u else u - two32.
Definition js_xor (a b : Z) : Z := i32 (Z.lxor (u32 a) (u32 b)).
Definition js_or (a b : Z) : Z := i32 (Z.lor (u32 a) (u32 b)).
Definition js_ushr (a : Z) (n : Z) : Z := Z.shiftr (u32 a) n.
Definition js_imul (a b : Z) : Z := i32 (u32 a * u32 b).

(** One call of the generator returned by [mulberry32(seed)]: the closure's
    [seed] variable after [seed += 0x6D2B79F5], and the 32-bit numerator of
    the returned fraction [((t ^ t >>> 14) >>> 0) / 4294967296].  The seed
    is a double growing by 0x6D2B79F5 per call, exact below 2^53. *)
Definition mulberry32_next (seed : Z) : Z * Z :=
  let seed' := seed + 1831565813 in
  let t := seed' in
  let t := js_imul (js_xor t (js_ushr t 15)) (js_or t 1) in
  let t := js_xor t (t + js_imul (js_xor t (js_ushr t 7)) (js_or t 61)) in
  (seed', js_ushr (js_xor t (js_ushr t 14)) 0).

(** [var temp = array[i]; array[i] = array[j]; array[j] = temp;] *)
Definition swap {A} (d : A) (a : list A) (i j : nat) : list A :=
  let temp := nth i a d in
  let a := list_set a i (nth j a d) in
  list_set a j temp.

(** The loop [for (var i = n - 1; i > 0; i--)], [i] counting down; the
    generator state is threaded.  [Math.floor(random() * (i + 1))] is
    [(u * (i + 1)) >> 32] for the 32-bit draw [u]: the product is exact in
    a double for arrays below 2^21 elements. *)
Fixpoint fisher_yates {A} (d : A) (i : nat) (seed : Z) (a : list A)
  : list A :=
  match i with
  | O => a
  | S i' =>
      let '(seed', u) := mulberry32_next seed in
      let j := Z.to_nat (Z.shiftr (u * Z.of_nat (S i)) 32) in
      fisher_yates d i' seed' (swap d a (S i') j)
  end.

(** The new contents of the array shuffled by [seededShuffle(array, seed)];
    a missing seed is replaced by [Date.now()]. *)
Definition shuffle_list (a : list loc) (seed : option Z) (now : Z) : list loc :=
  let seed := match seed with Some s => s | None => now end in
  fisher_yates O (length a - 1)%nat seed a.

(** [parseInt(c.AI_Rank_xB) || 0] *)
Definition ai_key (h : Heap) (c : loc) : Z :=
  match parseInt (AI_Rank_xB (deref h c)) with Some v => v | None => 0 end.

(** Stable [Array.prototype.sort] with a numeric comparator [cmp]:
    insertion sort, an element placed before the first one it does not
    compare greater than. *)
Fixpoint sort_insert (cmp : loc -> loc -> Z) (x : loc) (l : list loc)
  : list loc :=
  match l with
  | [] => [x]
  | y :: r => if cmp x y <=? 0 then x :: y :: r else y :: sort_insert cmp x r
  end.

Fixpoint js_sort (cmp : loc -> loc -> Z) (l : list loc) : list loc :=
  match l with
  | [] => []
  | x :: r => sort_insert cmp x (js_sort cmp r)
  end.

(** Arrays are objects too: [ArrStore] holds the arrays, an array is an
    index into it; [result = candidates.slice()] allocates. *)
Definition ArrStore := list (list loc).

Definition arr (A : ArrStore) (a : nat) : list loc := nth a A [].

(** [seededShuffle(array, seed)] shuffles [array] in place. *)
Definition seededShuffle (A : ArrStore) (a : nat) (seed : option Z) (now : Z)
  : ArrStore :=
  list_set A a (shuffle_list (arr A a) seed now).

(** [applySelectionMethod(candidates, method, seed)]: copies the array, then
    sorts or shuffles the copy in place and returns it. *)
Definition applySelectionMethod (h : Heap) (A : ArrStore) (candidates : nat)
    (method : string) (seed : option Z) (now : Z) : ArrStore * nat :=
  let r := length A in
  let A := app A [arr A candidates] in
  if String.eqb method "top-ai" then
    (list_set A r (js_sort (fun a b => ai_key h b - ai_key h a) (arr A r)), r)
  else if String.eqb method "bottom-ai" then
    (list_set A r (js_sort (fun a b => ai_key h a - ai_key h b) (arr A r)), r)
  else if String.eqb method "random" then
    (seededShuffle A r seed now, r)
  else (A, r).

(** [array.slice(0, e)] *)
Definition slice0 {A} (l : list A) (e : Z) : list A :=
  if e <? 0 then firstn (Z.to_nat (Z.of_nat (length l) + e)) l
  else firstn (Z.to_nat e) l.

(** ** Session options *)

Definition GRID_SIZE : Z := 3.
Definition GRID_CAPACITY : Z := GRID_SIZE * GRID_SIZE.

Record Options : Type := mkOptions {
  selectionCount : Z;
  batchSize_opt : Z;
  selectionMethod : string;
  rankFilter : string;
  aiScoreThreshold : option Threshold;   (** [None]: null *)
  groupFilter : option (list jval);     (** [None]: null *)
  randomSeed : option Z                  (** [None]: null *)
}.

Definition DEFAULT_SESSION_OPTIONS : Options := {|
  selectionCount := 50;
  batchSize_opt := GRID_CAPACITY;
  selectionMethod := "top-ai";
  rankFilter := "unranked";
  aiScoreThreshold := Some (mkThreshold (Some 0) (Some 100));
  groupFilter := None;
  randomSeed := None |}.

(** The options object a caller passes; [None] is a property it does not
    set. *)
Record UserOptions : Type := mkUserOptions {
  u_selectionCount : option Z;
  u_batchSize : option Z;
  u_selectionMethod : option string;
  u_rankFilter : option string;
  u_aiScoreThreshold : option (option Threshold);
  u_groupFilter : option (option (list jval));
  u_randomSeed : option (option Z)
}.

Definition no_options : UserOptions :=
  mkUserOptions None None None None None None None.

Definition override {A} (d : A) (o : option A) : A :=
  match o with Some v => v | None => d end.

(** [Object.assign({}, DEFAULT_SESSION_OPTIONS, options || {})] *)
Definition merge_options (o : UserOptions) : Options :=
  let d := DEFAULT_SESSION_OPTIONS in {|
  selectionCount := override (selectionCount d) (u_selectionCount o);
  batchSize_opt := override (batchSize_opt d) (u_batchSize o);
  selectionMethod := override (selectionMethod d) (u_selectionMethod o);
  rankFilter := override (rankFilter d) (u_rankFilter o);
  aiScoreThreshold := override (aiScoreThreshold d) (u_aiScoreThreshold o);
  groupFilter := override (groupFilter d) (u_groupFilter o);
  randomSeed := override (randomSeed d) (u_randomSeed o) |}.

(** The filter stages 1 to 4 of [filterCandidates] and
    [countEligibleCandidates]. *)
Definition eligible (h : Heap) (allCandidates : list loc) (options : Options)
  : list loc :=
  let candidates := filter (fun c => trim_nonempty (Node_xA (deref h c)))
                      allCandidates in
  let candidates := applyGroupFilter h candidates (groupFilter options) in
  let candidates := applyRankFilter h candidates (rankFilter options) in
  applyAIScoreThreshold h candidates (aiScoreThreshold options).

(** [filterCandidates(allCandidates, options)]: the ordering step runs on
    the fresh array returned by the last [filter]. *)
Definition filterCandidates (h : Heap) (allCandidates : list loc)
    (options : Options) (now : Z) : list loc :=
  let candidates := eligible h allCandidates options in
  let '(A, r) := applySelectionMethod h [candidates] 0
                   (selectionMethod options) (randomSeed options) now in
  let candidates := arr A r in
  slice0 candidates (Z.min (selectionCount options) (Z.of_nat (length candidates))).

Definition countEligibleCandidates (h : Heap) (allCandidates : list loc)
    (options : Options) : nat :=
  length (eligible h allCandidates options).

(** ** Maps and sets in insertion order *)

Section OrderedMap.
Context {K V : Type} (eqb : K -> K -> bool).

Definition map_has (k : K) (m : list (K * V)) : bool :=
  existsb (fun p => eqb (fst p) k) m.

Fixpoint map_get (k : K) (m : list (K * V)) : option V :=
  match m with
  | [] => None
  | (k', v) :: r => if eqb k' k then Some v else map_get k r
  end.

(** [m.set(k, v)]: an existing key keeps its position. *)
Fixpoint map_replace (k : K) (v : V) (m : list (K * V)) : list (K * V) :=
  match m with
  | [] => []
  | (k', v') :: r =>
      if eqb k' k then (k', v) :: r else (k', v') :: map_replace k v r
  end.

Definition map_set (k : K) (v : V) (m : list (K * V)) : list (K * V) :=
  if map_has k m then map_replace k v m else app m [(k, v)].

Definition map_delete (k : K) (m : list (K * V)) : list (K * V) :=
  filter (fun p => negb (eqb (fst p) k)) m.

(** [new Map(entries)] *)
Definition map_of_entries (l : list (K * V)) : list (K * V) :=
  fold_left (fun m p => map_set (fst p) (snd p) m) l [].
End OrderedMap.

Definition set_has (x : string) (s : list string) : bool :=
  existsb (String.eqb x) s.

(** [s.add(x)] *)
Definition set_add (x : string) (s : list string) : list string :=
  if set_has x s then s else app s [x].

(** [new Set(values)] *)
Definition set_of_list (l : list string) : list string :=
  fold_left (fun s x => set_add x s) l [].

(** ** Grid allocator *)

(** A cell [{row, col}].  The [cells] map is keyed by the string
    [row + ',' + col]; on integer coordinates that string determines the
    pair, so the key is modelled by the pair itself. *)
Definition Coord := (Z * Z)%type.

Definition coord_eqb (a b : Coord) : bool :=
  (fst a =? fst b) && (snd a =? snd b).

Record Grid : Type := mkGrid {
  cells : list (Coord * string);
  availableCells : list Coord;
  cellSize : Z * Z;
  spacing : Z
}.

(** The nested [row]/[col] loops of [initGrid], for [rows] by [cols] cells;
    the code runs them with [GRID_SIZE] for both bounds. *)
Definition all_coords (rows cols : nat) : list Coord :=
  flat_map (fun row => map (fun col => (Z.of_nat row, Z.of_nat col)) (seq 0 cols))
    (seq 0 rows).

Definition initGrid_dims (rows cols : nat) : Grid :=
  mkGrid [] (all_coords rows cols) (140, 100) 10.

Definition initGrid : Grid :=
  initGrid_dims (Z.to_nat GRID_SIZE) (Z.to_nat GRID_SIZE).

(** [availableCells.splice(idx, 1)] *)
Definition remove_nth {A} (idx : nat) (l : list A) : list A :=
  app (firstn idx l) (skipn (S idx) l).

(** [assignGridCell(candidate, grid)], [idx] being the draw
    [Math.floor(Math.random() * grid.availableCells.length)].  That draw is
    below the length; a larger [idx] would make [splice] return nothing and
    is modelled as leaving the grid alone. *)
Definition assignGridCell (candidateId : string) (idx : nat) (grid : Grid)
  : option Coord * Grid :=
  match availableCells grid with
  | [] => (None, grid)
  | avail =>
      if Nat.ltb idx (length avail) then
        let cell := nth idx avail (0, 0) in
        (Some cell,
         mkGrid (map_set coord_eqb cell candidateId (cells grid))
                (remove_nth idx avail) (cellSize grid) (spacing grid))
      else (None, grid)
  end.

(** [releaseGridCell(row, col, grid)] *)
Definition releaseGridCell (row col : Z) (grid : Grid) : Grid :=
  if map_has coord_eqb (row, col) (cells grid) then
    mkGrid (map_delete coord_eqb (row, col) (cells grid))
           (app (availableCells grid) [(row, col)])
           (cellSize grid) (spacing grid)
  else grid.

(** A call to the allocator. *)
Inductive grid_call : Type :=
  | GAssign (candidateId : string) (idx : nat)
  | GRelease (row col : Z).

Definition grid_apply (g : Grid) (op : grid_call) : Grid :=
  match op with
  | GAssign cid idx => snd (assignGridCell cid idx g)
  | GRelease row col => releaseGridCell row col g
  end.

Definition run_grid (g : Grid) (ops : list grid_call) : Grid :=
  fold_left grid_apply ops g.

(** ** Sessions *)

(** A value of the [scores] map; [massScored] false is the absent flag. *)
Record ScoreEntry : Type := mkScoreEntry {
  score : jval;
  timestamp : Z;
  waveNumber : Z;
  massScored : bool
}.

Record Session : Type := mkSession {
  session_id : Z;                  (** the [Date.now()] of ['eval-' + Date.now()] *)
  selectedCandidates : list loc;
  selectedIds : list string;
  batchSize : Z;
  currentBatchIndex : Z;
  currentBatchCandidates : list loc;
  scores : list (string * ScoreEntry);
  undecided : list string;
  startedAt : Z;
  completedAt : option Z;          (** [None]: null *)
  grid : Grid;
  config : Options
}.

(** The record written to localStorage by [saveSession]. *)
Record Persisted : Type := mkPersisted {
  p_id : Z;
  p_selectedIds : list string;
  p_batchSize : Z;
  p_currentBatchIndex : Z;
  p_currentBatchData : list (string * option Z * option Z);
  p_scores : list (string * ScoreEntry);
  p_undecided : list string;
  p_startedAt : Z;
  p_completedAt : option Z;
  p_lastSaved : Z;
  p_grid : Grid;
  p_config : Options
}.

(** The localStorage slot 'haystack_eval_session'. *)
Definition Store := option Persisted.

(** The outside world the engine acts on: the candidate objects and the
    storage slot. *)
Record World : Type := mkWorld { w_heap : Heap; w_store : Store }.

Definition set_store (w : World) (st : Store) : World := mkWorld (w_heap w) st.

Definition with_scores (s : Session) (sc : list (string * ScoreEntry)) : Session :=
  {| session_id := session_id s; selectedCandidates := selectedCandidates s;
     selectedIds := selectedIds s; batchSize := batchSize s;
     currentBatchIndex := currentBatchIndex s;
     currentBatchCandidates := currentBatchCandidates s; scores := sc;
     undecided := undecided s; startedAt := startedAt s;
     completedAt := completedAt s; grid := grid s; config := config s |}.

Definition with_undecided (s : Session) (u : list string) : Session :=
  {| session_id := session_id s; selectedCandidates := selectedCandidates s;
     selectedIds := selectedIds s; batchSize := batchSize s;
     currentBatchIndex := currentBatchIndex s;
     currentBatchCandidates := currentBatchCandidates s; scores := scores s;
     undecided := u; startedAt := startedAt s;
     completedAt := completedAt s; grid := grid s; config := config s |}.

Definition with_completedAt (s : Session) (t : option Z) : Session :=
  {| session_id := session_id s; selectedCandidates := selectedCandidates s;
     selectedIds := selectedIds s; batchSize := batchSize s;
     currentBatchIndex := currentBatchIndex s;
     currentBatchCandidates := currentBatchCandidates s; scores := scores s;
     undecided := undecided s; startedAt := startedAt s;
     completedAt := t; grid := grid s; config := config s |}.

Definition with_batch_index (s : Session) (i : Z) : Session :=
  {| session_id := session_id s; selectedCandidates := selectedCandidates s;
     selectedIds := selectedIds s; batchSize := batchSize s;
     currentBatchIndex := i;
     currentBatchCandidates := currentBatchCandidates s; scores := scores s;
     undecided := undecided s; startedAt := startedAt s;
     completedAt := completedAt s; grid := grid s; config := config s |}.

Definition with_batch (s : Session) (b : list loc) (g : Grid) : Session :=
  {| session_id := session_id s; selectedCandidates := selectedCandidates s;
     selectedIds := selectedIds s; batchSize := batchSize s;
     currentBatchIndex := currentBatchIndex s;
     currentBatchCandidates := b; scores := scores s;
     undecided := undecided s; startedAt := startedAt s;
     completedAt := completedAt s; grid := g; config := config s |}.

(** ** Persistence adapter *)

(** [saveSession(session)]: the serialisable record, stored under the
    single key. *)
Definition serialize (h : Heap) (s : Session) (now : Z) : Persisted := {|
  p_id := session_id s;
  p_selectedIds := selectedIds s;
  p_batchSize := batchSize s;
  p_currentBatchIndex := currentBatchIndex s;
  p_currentBatchData :=
    map (fun c => let o := deref h c in (ID_xA o, gridRow o, gridCol o))
      (currentBatchCandidates s);
  p_scores := scores s;
  p_undecided := undecided s;
  p_startedAt := startedAt s;
  p_completedAt := completedAt s;
  p_lastSaved := now;
  p_grid := grid s;
  p_config := config s |}.

Definition saveSession (w : World) (s : Session) (now : Z) : World :=
  set_store w (Some (serialize (w_heap w) s now)).

(** [clearSession()] *)
Definition clearSession (w : World) : World := set_store w None.

(** The [forEach] over [data.currentBatchData] in [loadSession]: a
    candidate found in [candidateMap] gets [gridRow]/[gridCol] assigned on
    the object itself and is pushed. *)
Fixpoint restore_batch (candidateMap : list (string * loc)) (h : Heap)
    (items : list (string * option Z * option Z)) (acc : list loc)
  : Heap * list loc :=
  match items with
  | [] => (h, acc)
  | (id, row, col) :: rest =>
      match map_get String.eqb id candidateMap with
      | Some c =>
          let h := write h c (with_grid_pos (deref h c) row col) in
          restore_batch candidateMap h rest (app acc [c])
      | None => restore_batch candidateMap h rest acc
      end
  end.

(** [candidateMap]: [allCandidates.forEach(c => candidateMap.set(c.ID_xA, c))]. *)
Definition candidate_map (h : Heap) (allCandidates : list loc)
  : list (string * loc) :=
  fold_left (fun m c => map_set String.eqb (ID_xA (deref h c)) c m)
    allCandidates [].

(** [loadSession(allCandidates)].  [if (data.completedAt)] treats 0 as not
    completed.  The staleness test [found < ids.length * 0.9] is compared as
    [10 * found < 9 * ids.length]: the double product [n * 0.9] rounds to
    the exact value [9n/10] when that is an integer, and otherwise stays
    far from any integer. *)
Definition loadSession (w : World) (allCandidates : list loc)
  : option Session * World :=
  match w_store w with
  | None => (None, w)
  | Some data =>
      let completed :=
        match p_completedAt data with
        | Some t => negb (t =? 0)
        | None => false
        end in
      match completed with
      | true => (None, w)
      | false =>
          let candidateMap := candidate_map (w_heap w) allCandidates in
          let selected :=
            flat_map (fun id => match map_get String.eqb id candidateMap with
                                | Some c => [c] | None => [] end)
              (p_selectedIds data) in
          if 10 * Z.of_nat (length selected)
               <? 9 * Z.of_nat (length (p_selectedIds data)) then
            (None, clearSession w)
          else
            let g := p_grid data in
            let g := mkGrid (map_of_entries coord_eqb (cells g))
                       (availableCells g) (cellSize g)
                       (if spacing g =? 0 then 10 else spacing g) in
            let '(h, batch) :=
              restore_batch candidateMap (w_heap w) (p_currentBatchData data) [] in
            (Some {| session_id := p_id data;
                     selectedCandidates := selected;
                     selectedIds := p_selectedIds data;
                     batchSize := p_batchSize data;
                     currentBatchIndex := p_currentBatchIndex data;
                     currentBatchCandidates := batch;
                     scores := map_of_entries String.eqb (p_scores data);
                     undecided := set_of_list (p_undecided data);
                     startedAt := p_startedAt data;
                     completedAt := p_completedAt data;
                     grid := g;
                     config := p_config data |},
             mkWorld h (w_store w))
      end
  end.

(** ** Evaluation engine operations *)

(** The result [{ success, evaluationComplete }] or [{ success: false, error }]. *)
Inductive ScoreResult : Type :=
  | ScoreOk (evaluationComplete : bool)
  | ScoreFail (error : string).

Definition success (r : ScoreResult) : bool :=
  match r with ScoreOk _ => true | ScoreFail _ => false end.

(** [totalProcessed >= totalToEvaluate] *)
Definition evaluation_complete (s : Session) : bool :=
  Nat.leb (length (selectedCandidates s))
          (length (scores s) + length (undecided s)).

(** The tail shared by [scoreCandidate] and [skipCandidate]: save, check
    completion, and save again with [completedAt] set when complete. *)
Definition save_and_check (w : World) (s : Session) (now : Z)
  : ScoreResult * Session * World :=
  let w := saveSession w s now in
  if evaluation_complete s then
    let s := with_completedAt s (Some now) in
    (ScoreOk true, s, saveSession w s now)
  else (ScoreOk false, s, w).

Definition scoreCandidate (w : World) (s : Session) (candidateId : string)
    (score : jval) (now : Z) : ScoreResult * Session * World :=
  if map_has String.eqb candidateId (scores s) then
    (ScoreFail "Already scored", s, w)
  else
    let s := with_scores s
               (map_set String.eqb candidateId
                  (mkScoreEntry score now (currentBatchIndex s + 1) false)
                  (scores s)) in
    save_and_check w s now.

Definition skipCandidate (w : World) (s : Session) (candidateId : string)
    (now : Z) : ScoreResult * Session * World :=
  let s := with_undecided s (set_add candidateId (undecided s)) in
  save_and_check w s now.

(** [session.currentBatchIndex < Math.ceil(length / batchSize) - 1], the
    division being a double one: a batch size of 0 gives Infinity (NaN for
    an empty selection), a negative one a ceiling towards zero. *)
Definition more_batches (len b idx : Z) : bool :=
  if 0 <? b then idx <? (len + b - 1) / b - 1
  else if b =? 0 then 0 <? len
  else idx <? - (len / - b) - 1.

Definition advanceToNextBatch (w : World) (s : Session) (now : Z)
  : bool * Session * World :=
  if more_batches (Z.of_nat (length (selectedCandidates s))) (batchSize s)
       (currentBatchIndex s) then
    let s := with_batch_index s (currentBatchIndex s + 1) in
    (true, s, saveSession w s now)
  else (false, s, w).

Definition unprocessed (h : Heap) (s : Session) (c : loc) : bool :=
  negb (map_has String.eqb (ID_xA (deref h c)) (scores s)) &&
  negb (set_has (ID_xA (deref h c)) (undecided s)).

(** The [map] of [getNextBatchWithGridPositions]: each candidate gets a
    cell (one random draw from [draws]) and a fresh copy. *)
Fixpoint place_batch (h : Heap) (g : Grid) (cs : list loc) (draws : list nat)
  : Heap * Grid * list loc :=
  match cs with
  | [] => (h, g, [])
  | c :: rest =>
      let idx := hd O draws in
      let o := deref h c in
      let '(cell, g) := assignGridCell (ID_xA o) idx g in
      let copy := match cell with
                  | Some (r, k) => with_grid_pos o (Some r) (Some k)
                  | None => o
                  end in
      let '(h, l) := alloc h copy in
      let '(h, g, ls) := place_batch h g rest (tl draws) in
      (h, g, l :: ls)
  end.

Definition getNextBatchWithGridPositions (w : World) (s : Session)
    (draws : list nat) (now : Z) : list loc * Session * World :=
  let h := w_heap w in
  let todo := filter (unprocessed h s) (selectedCandidates s) in
  let '(h, g, batch) := place_batch h (grid s) (slice0 todo (batchSize s)) draws in
  let s := with_batch s batch g in
  let w := mkWorld h (w_store w) in
  (batch, s, saveSession w s now).

Definition has_id (h : Heap) (id : string) (c : loc) : bool :=
  String.eqb (ID_xA (deref h c)) id.

(** Releases the cell recorded on a departing candidate.  [gridRow] and
    [gridCol] are always written together; a lone [gridRow] would name the
    key [row + ',undefined'], which no cell has. *)
Definition release_departing (h : Heap) (d : loc) (g : Grid) : Grid :=
  match gridRow (deref h d), gridCol (deref h d) with
  | Some r, Some k => releaseGridCell r k g
  | _, _ => g
  end.

Definition removeFromBatch (w : World) (s : Session) (candidateId : string)
    (now : Z) : nat * Session * World :=
  let h := w_heap w in
  let g := match find (has_id h candidateId) (currentBatchCandidates s) with
           | Some d => release_departing h d (grid s)
           | None => grid s
           end in
  let batch := filter (fun c => negb (has_id h candidateId c))
                 (currentBatchCandidates s) in
  let s := with_batch s batch g in
  (length batch, s, saveSession w s now).

Definition replaceInGrid (w : World) (s : Session) (candidateId : string)
    (now : Z) : option loc * Session * World :=
  let h := w_heap w in
  match find (has_id h candidateId) (currentBatchCandidates s) with
  | None => (None, s, w)
  | Some d =>
      match gridRow (deref h d), gridCol (deref h d) with
      | Some r, Some k =>
          let g := releaseGridCell r k (grid s) in
          let batch := filter (fun c => negb (has_id h candidateId c))
                         (currentBatchCandidates s) in
          let currentIds := map (fun c => ID_xA (deref h c)) batch in
          match find (fun c => unprocessed h s c &&
                               negb (set_has (ID_xA (deref h c)) currentIds))
                     (selectedCandidates s) with
          | Some n =>
              let o := with_grid_pos (deref h n) (Some r) (Some k) in
              let '(h, l) := alloc h o in
              let g := mkGrid (map_set coord_eqb (r, k) (ID_xA o) (cells g))
                         (availableCells g) (cellSize g) (spacing g) in
              let s := with_batch s (app batch [l]) g in
              let w := mkWorld h (w_store w) in
              (Some l, s, saveSession w s now)
          | None =>
              let s := with_batch s batch g in
              (None, s, saveSession w s now)
          end
      | _, _ => (None, s, w)
      end
  end.

(** [{ affected, reScored, scoredIds }] *)
Record MassResult : Type := mkMassResult {
  affected : nat; reScored : nat; scoredIds : list string }.

Definition attr_matches (attributeType : string) (attributeValue : jval)
    (o : Candidate) : bool :=
  if String.eqb attributeType "root" then
    jval_eqb (Root1_xB o) attributeValue || jval_eqb (Root2_xB o) attributeValue
    || jval_eqb (Root3_xB o) attributeValue
  else
    jval_eqb (Class1_xB o) attributeValue || jval_eqb (Class2_xB o) attributeValue
    || jval_eqb (Class3_xB o) attributeValue.

(** [session.grid.cells.forEach(...)] for one scored id: every cell holding
    it is released.  A release deletes only the entry being visited, so the
    live iteration visits the entries present when it starts. *)
Definition release_cells_of (id : string) (g : Grid) : Grid :=
  fold_left (fun g e => if String.eqb (snd e) id
                        then releaseGridCell (fst (fst e)) (snd (fst e)) g
                        else g)
    (cells g) g.

(** One iteration of [matching.forEach(...)]: count a re-score, set the
    entry (flagged [massScored]), record the id.  The accumulator is
    [(scores, reScored, scoredIds)]. *)
Definition mass_step (h : Heap) (wave : Z) (score : jval) (now : Z)
    (acc : list (string * ScoreEntry) * nat * list string) (c : loc)
  : list (string * ScoreEntry) * nat * list string :=
  let '(sc, n, ids) := acc in
  let id := ID_xA (deref h c) in
  (map_set String.eqb id (mkScoreEntry score now wave true) sc,
   if map_has String.eqb id sc then S n else n,
   app ids [id]).

Definition massScoreByAttribute (w : World) (s : Session)
    (attributeType : string) (attributeValue : jval) (score : jval)
    (allNodes : option (list loc)) (now : Z) : MassResult * Session * World :=
  let h := w_heap w in
  let candidates := match allNodes with Some l => l | None => selectedCandidates s end in
  let matching := filter (fun c => attr_matches attributeType attributeValue (deref h c))
                    candidates in
  let '(sc, reScored, ids) :=
    fold_left (mass_step h (currentBatchIndex s + 1) score now)
      matching (scores s, O, []) in
  let g := fold_left (fun g id => release_cells_of id g) ids (grid s) in
  let batch := filter (fun c => negb (set_has (ID_xA (deref h c)) ids))
                 (currentBatchCandidates s) in
  let s := with_batch (with_scores s sc) batch g in
  let s := if evaluation_complete s then with_completedAt s (Some now) else s in
  (mkMassResult (length ids) reScored ids, s, saveSession w s now).

(** [createSession(allCandidates, options)]: an error object, or a session. *)
Inductive CreateResult : Type :=
  | NoCandidates (error : string) (suggestions : list string)
  | Created (s : Session).

Definition createSession (w : World) (allCandidates : list loc)
    (userOptions : UserOptions) (now : Z) : CreateResult * World :=
  let options := merge_options userOptions in
  let seed := match randomSeed options with
              | None | Some 0 =>
                  if String.eqb (selectionMethod options) "random"
                  then Some now else randomSeed options
              | Some _ => randomSeed options
              end in
  let options := {| selectionCount := selectionCount options;
                    batchSize_opt := batchSize_opt options;
                    selectionMethod := selectionMethod options;
                    rankFilter := rankFilter options;
                    aiScoreThreshold := aiScoreThreshold options;
                    groupFilter := groupFilter options;
                    randomSeed := seed |} in
  let selected := filterCandidates (w_heap w) allCandidates options now in
  match selected with
  | [] =>
      let dq := String (ascii_of_nat 34) EmptyString in
      (NoCandidates "No candidates match the current filters"%string
         ["Try expanding the AI score range"%string;
          ("Include ranked candidates (change rank filter to " ++ dq ++ "all"
             ++ dq ++ ")")%string;
          "Select more groups"%string], w)
  | _ =>
      let w := clearSession w in
      let s := {| session_id := now;
                  selectedCandidates := selected;
                  selectedIds := map (fun c => ID_xA (deref (w_heap w) c)) selected;
                  batchSize := batchSize_opt options;
                  currentBatchIndex := 0;
                  currentBatchCandidates := [];
                  scores := [];
                  undecided := [];
                  startedAt := now;
                  completedAt := None;
                  grid := initGrid;
                  config := options |} in
      (Created s, saveSession w s now)
  end.

(** The engine calls a caller makes on a live session (all but creation). *)
Inductive engine_call : Type :=
  | CallScore (candidateId : string) (score : jval)
  | CallSkip (candidateId : string)
  | CallMassScore (attributeType : string) (attributeValue : jval)
      (score : jval) (allNodes : option (list loc))
  | CallAdvance
  | CallNextBatch (draws : list nat)
  | CallRemove (candidateId : string)
  | CallReplace (candidateId : string).

Definition engine_apply (w : World) (s : Session) (call : engine_call) (now : Z)
  : Session * World :=
  match call with
  | CallScore id v => let '(_, s, w) := scoreCandidate w s id v now in (s, w)
  | CallSkip id => let '(_, s, w) := skipCandidate w s id now in (s, w)
  | CallMassScore ty v sc nodes =>
      let '(_, s, w) := massScoreByAttribute w s ty v sc nodes now in (s, w)
  | CallAdvance => let '(_, s, w) := advanceToNextBatch w s now in (s, w)
  | CallNextBatch d =>
      let '(_, s, w) := getNextBatchWithGridPositions w s d now in (s, w)
  | CallRemove id => let '(_, s, w) := removeFromBatch w s id now in (s, w)
  | CallReplace id => let '(_, s, w) := replaceInGrid w s id now in (s, w)
  end.

Fixpoint run_engine (w : World) (s : Session) (calls : list (engine_call * Z))
  : Session * World :=
  match calls with
  | [] => (s, w)
  | (c, now) :: rest =>
      let '(s, w) := engine_apply w s c now in run_engine w s rest
  end.

(** ** Read-only queries *)

(** [array.slice(start, end)] with integer bounds: a negative bound counts
    from the end, and both are clamped to the array. *)
Definition slice_js {A} (l : list A) (start end_ : Z) : list A :=
  let len := Z.of_nat (length l) in
  let rs := if start <? 0 then Z.max (len + start) 0 else Z.min start len in
  let re := if end_ <? 0 then Z.max (len + end_) 0 else Z.min end_ len in
  firstn (Z.to_nat (re - rs)) (skipn (Z.to_nat rs) l).

(** [getCurrentBatch(session)] *)
Definition getCurrentBatch (h : Heap) (s : Session) : list loc :=
  let start := currentBatchIndex s * batchSize s in
  let end_ := start + batchSize s in
  filter (unprocessed h s) (slice_js (selectedCandidates s) start end_).

(** [Math.ceil(n / b)] on integers; [None] is a non-finite result (Infinity
    for [b = 0 < n], NaN for [b = n = 0]). *)
Definition js_ceil_div (n b : Z) : option Z :=
  if 0 <? b then Some ((n + b - 1) / b)
  else if b =? 0 then None
  else Some (- (n / - b)).

(** The result of [getProgress]; [percentComplete], a rounded double
    quotient, is not part of the model. *)
Record Progress : Type := mkProgress {
  total : Z; scored : Z; skipped : Z; remaining : Z;
  currentWave : Z; totalWaves : option Z }.

(** [getProgress(session)]; [None] is a null session.  A [Map] or [Set]
    [size] is the length of its entry list. *)
Definition getProgress (s : option Session) : Progress :=
  match s with
  | None => mkProgress 0 0 0 0 0 (Some 0)
  | Some s =>
      let total := Z.of_nat (length (selectedCandidates s)) in
      let scored := Z.of_nat (length (scores s)) in
      let skipped := Z.of_nat (length (undecided s)) in
      mkProgress total scored skipped (total - scored - skipped)
        (currentBatchIndex s + 1) (js_ceil_div total (batchSize s))
  end.

(** The truth value of a stored [completedAt]: 0 and null are falsy. *)
Definition completed_flag (t : option Z) : bool :=
  match t with Some t => negb (t =? 0) | None => false end.

(** [hasResumableSession()] *)
Definition hasResumableSession (w : World) : bool :=
  match w_store w with
  | None => false
  | Some data => negb (completed_flag (p_completedAt data))
  end.

(** [{ scored, total, lastSaved, config }]; a stored [config] is an object,
    so [data.config || {}] is [data.config]. *)
Record SavedInfo : Type := mkSavedInfo {
  si_scored : nat; si_total : nat; si_lastSaved : Z; si_config : Options }.

(** [getSavedSessionInfo()] *)
Definition getSavedSessionInfo (w : World) : option SavedInfo :=
  match w_store w with
  | None => None
  | Some data =>
      if completed_flag (p_completedAt data) then None
      else Some (mkSavedInfo (length (p_scores data)) (length (p_selectedIds data))
                   (p_lastSaved data) (p_config data))
  end.

(** [countByAttribute(attributeType, attributeValue, allNodes)]; [None] is
    a missing [allNodes], replaced by [[]]. *)
Definition countByAttribute (h : Heap) (attributeType : string)
    (attributeValue : jval) (allNodes : option (list loc)) : nat :=
  let candidates := match allNodes with Some l => l | None => [] end in
  length (filter (fun c => attr_matches attributeType attributeValue (deref h c))
            candidates).

(** ToBoolean and ToString on field values; an integer prints as its
    decimal numeral. *)
Definition js_truthy (v : jval) : bool :=
  match v with
  | JUndef | JNull => false
  | JStr s => negb (String.eqb s "")
  | JNum z => negb (z =? 0)
  | JNumeral _ => true
  | JBool b => b
  end.

Definition js_to_string (v : jval) : string :=
  match v with
  | JUndef => "undefined"
  | JNull => "null"
  | JStr s => s
  | JNum z => DecimalString.NilEmpty.string_of_int (Z.to_int z)
  | JNumeral s => s
  | JBool true => "true"
  | JBool false => "false"
  end.

(** An entry [{ root, cls, count }] of [rootMap]. *)
Record RootEntry : Type := mkRootEntry { re_root : jval; re_cls : jval; re_count : nat }.

(** [r.root + '|' + (r.cls || '')] *)
Definition root_key (root cls : jval) : string :=
  (js_to_string root ++ "|" ++ (if js_truthy cls then js_to_string cls else ""))%string.

(** The inner [forEach] callback of [getCurrentBatchRoots] for one
    [{root, cls}]: create the entry with count 0 if the key is new, then
    [rootMap.get(key).count++] on the stored object. *)
Definition roots_step (m : list (string * RootEntry)) (r : jval * jval)
  : list (string * RootEntry) :=
  let '(root, cls) := r in
  if js_truthy root then
    let key := root_key root cls in
    let m := if map_has String.eqb key m then m
             else map_set String.eqb key (mkRootEntry root cls 0) m in
    match map_get String.eqb key m with
    | Some e => map_set String.eqb key (mkRootEntry (re_root e) (re_cls e) (S (re_count e))) m
    | None => m
    end
  else m.

Definition root_pairs (o : Candidate) : list (jval * jval) :=
  [(Root1_xB o, Class1_xB o); (Root2_xB o, Class2_xB o); (Root3_xB o, Class3_xB o)].

Definition roots_map (h : Heap) (batch : list loc) : list (string * RootEntry) :=
  fold_left (fun m c => fold_left roots_step (root_pairs (deref h c)) m) batch [].

(** [getCurrentBatchRoots(session)]: [Array.from(rootMap.values())]. *)
Definition getCurrentBatchRoots (h : Heap) (s : Session) : list RootEntry :=
  map snd (roots_map h (currentBatchCandidates s)).

(** ** Grid-first API *)

(** [createGrid()] *)
Definition createGrid : Grid := initGrid.

(** [releaseCell(row, col, grid)] *)
Definition releaseCell (row col : Z) (grid : Grid) : Grid := releaseGridCell row col grid.

(** The [filters] object of the grid-first mode; [None] is an absent
    property.  [aiScoreThreshold] is a property some callers pass; the
    engine does not read it. *)
Record GridFilters : Type := mkGridFilters {
  f_rankFilter : option string;
  f_groupFilter : option (list jval);
  f_aiScoreRange : option (list Z);
  f_selectionMethod : option string;
  f_aiScoreThreshold : option Threshold
}.

(** [x || d] on an optional string: [undefined] and [''] give [d]. *)
Definition or_default (o : option string) (d : string) : string :=
  match o with Some s => if String.eqb s "" then d else s | None => d end.

(** [{ min: r ? r[0] : 0, max: r ? r[1] : 100 }]; a missing element is
    [undefined]. *)
Definition filter_threshold (f : GridFilters) : option Threshold :=
  Some match f_aiScoreRange f with
       | Some r => mkThreshold (nth_error r 0) (nth_error r 1)
       | None => mkThreshold (Some 0) (Some 100)
       end.

(** [filters.groupFilter && filters.groupFilter.length > 0 ? filters.groupFilter : null] *)
Definition filter_groups (f : GridFilters) : option (list jval) :=
  match f_groupFilter f with
  | Some ((_ :: _) as g) => Some g
  | _ => None
  end.

(** The options object built from [filters].  [countEligible] builds it
    without [selectionCount], [selectionMethod] and [randomSeed], and
    neither object has [batchSize]: the filter stages never read those
    fields, and the values given here stand for the absent ones. *)
Definition filter_options (f : GridFilters) (count : Z) (method : string)
    (seed : option Z) : Options := {|
  selectionCount := count;
  batchSize_opt := GRID_CAPACITY;
  selectionMethod := method;
  rankFilter := or_default (f_rankFilter f) "unranked";
  aiScoreThreshold := filter_threshold f;
  groupFilter := filter_groups f;
  randomSeed := seed |}.

(** [getFilteredBatch(nodes, filters, currentBatchIds, grid, batchSize)]:
    [batchSize || 6] ([None] is undefined), the eligible records in the
    selection order with [selectionCount] 9999 and [randomSeed] [Date.now()],
    minus the displayed ids, the first [batchSize] of them copied with a
    grid cell each.  [grid] is updated in place; it is returned. *)
Definition getFilteredBatch (h : Heap) (nodes : list loc) (filters : GridFilters)
    (currentBatchIds : list string) (grid : Grid) (batchSize : option Z)
    (draws : list nat) (now : Z) : Heap * Grid * list loc :=
  let batchSize := match batchSize with None | Some 0 => 6 | Some b => b end in
  let currentSet := set_of_list currentBatchIds in
  let options := filter_options filters 9999
                   (or_default (f_selectionMethod filters) "top-ai") (Some now) in
  let eligible := filterCandidates h nodes options now in
  let eligible := filter (fun c => negb (set_has (ID_xA (deref h c)) currentSet))
                    eligible in
  place_batch h grid (slice0 eligible batchSize) draws.

(** [countEligible(nodes, filters)].  The engine object literal defines
    [countEligible] twice; the later definition, this one, is the method. *)
Definition countEligible (h : Heap) (nodes : list loc) (filters : GridFilters) : nat :=
  countEligibleCandidates h nodes
    (filter_options filters (selectionCount DEFAULT_SESSION_OPTIONS)
       (selectionMethod DEFAULT_SESSION_OPTIONS) None).

(** The preview count of [EvaluationLauncher]: it calls [countEligible]
    with [{ rankFilter, aiScoreThreshold: { min, max }, groupFilter }]. *)
Definition launcher_count (h : Heap) (allCandidates : list loc) (rankFilter : string)
    (aiScoreMin aiScoreMax : Z) (selectedGroups : list jval) : nat :=
  countEligible h allCandidates
    (mkGridFilters (Some rankFilter)
       (match selectedGroups with [] => None | _ => Some selectedGroups end)
       None None (Some (mkThreshold (Some aiScoreMin) (Some aiScoreMax)))).

(** The record [place_batch] stores for a candidate [o] given the cell
    [assignGridCell] returned: [Object.assign({}, c, {gridRow, gridCol})] or
    [Object.assign({}, c)]. *)
Definition copy_at (o : Candidate) (cell : option Coord) : Candidate :=
  match cell with
  | Some (r, k) => with_grid_pos o (Some r) (Some k)
  | None => o
  end.

(** The cells actually assigned, in order. *)
Definition somes {A} (l : list (option A)) : list A :=
  flat_map (fun o => match o with Some x => [x] | None => [] end) l.

(** ** Reference predicates for the properties *)

(** What the threshold stage keeps, per kind of score value, for an explicit
    [{min, max}]. *)
Definition kept_by (min max : Z) (v : jval) : Prop :=
  if is_empty_val v then min = 0 /\ max = 100
  else match v with
       | JNum z => min <= z <= max
       | JStr s | JNumeral s =>
           exists n, parseInt_string s = Some n /\ min <= n <= max
       | _ => False
       end.

(** A decimal digit '0' .. '9', a string of them, and the value such a
    string denotes (Horner's rule from the accumulator [acc]). *)
Definition is_decimal_digit (c : ascii) : bool :=
  Nat.leb 48 (nat_of_ascii c) && Nat.leb (nat_of_ascii c) 57.

Fixpoint all_decimal (p : string) : bool :=
  match p with
  | EmptyString => true
  | String c r => is_decimal_digit c && all_decimal r
  end.

Fixpoint decimal_acc (p : string) (acc : Z) : Z :=
  match p with
  | EmptyString => acc
  | String c r => decimal_acc r (acc * 10 + (Z.of_nat (nat_of_ascii c) - 48))
  end.

Definition decimal_value (p : string) : Z := decimal_acc p 0.

Definition one_heap (v : jval) : Heap :=
  [mkCandidate "c1" "name" JUndef JUndef v JUndef JUndef JUndef
     JUndef JUndef JUndef None None].

(** The partition invariant: the keys of [cells] and [availableCells]
    together are a permutation of the full coordinate space. *)
Definition grid_partition (full : list Coord) (g : Grid) : Prop :=
  Permutation (app (map fst (cells g)) (availableCells g)) full.

(** Exclusivity of [scores] and [undecided]: no scored id is undecided. *)
Definition scores_undecided_disjoint (s : Session) : bool :=
  forallb (fun p => negb (set_has (fst p) (undecided s))) (scores s).

(** The calls that keep exclusivity: scoring an id that is not undecided,
    skipping an id that is not scored, mass-scoring when no matched record
    is undecided; the other calls do not touch [scores] or [undecided]. *)
Definition respects_exclusivity (h : Heap) (s : Session) (call : engine_call) : bool :=
  match call with
  | CallScore id _ => negb (set_has id (undecided s))
  | CallSkip id => negb (map_has String.eqb id (scores s))
  | CallMassScore ty v _ nodes =>
      let candidates := match nodes with Some l => l | None => selectedCandidates s end in
      forallb (fun c => negb (attr_matches ty v (deref h c)) ||
                        negb (set_has (ID_xA (deref h c)) (undecided s)))
        candidates
  | _ => true
  end.

Definition plain_candidate (id : string) : Candidate :=
  mkCandidate id "name" JUndef JUndef JUndef JUndef JUndef JUndef
    JUndef JUndef JUndef None None.

(** Two unranked, unscored candidates "a" and "b". *)
Definition demo_world : World :=
  mkWorld [plain_candidate "a"; plain_candidate "b"] None.

(** The options [EvaluationLauncher]'s [handleStart] passes to [onStart]:
    [{ selectionMethod, rankFilter, aiScoreThreshold: { min, max },
    groupFilter }]. *)
Definition launcher_start_options (selectionMethod rankFilter : string)
    (aiScoreMin aiScoreMax : Z) (selectedGroups : list jval) : UserOptions :=
  mkUserOptions None None (Some selectionMethod) (Some rankFilter)
    (Some (Some (mkThreshold (Some aiScoreMin) (Some aiScoreMax))))
    (Some (match selectedGroups with [] => None | _ => Some selectedGroups end)) None.

(** A one-wave session: "a" sits on cell (0, 0) and has been skipped, "b"
    waits. *)
Definition replace_world : World :=
  mkWorld [with_grid_pos (plain_candidate "a") (Some 0) (Some 0); plain_candidate "b"] None.

Definition replace_session : Session :=
  mkSession 0 [O; 1%nat] ["a"; "b"]%string 1 0 [O] [] ["a"]%string 0 None
    (snd (assignGridCell "a" 0 initGrid)) DEFAULT_SESSION_OPTIONS.

(** The grid filters with nothing chosen. *)
Definition no_filters : GridFilters := mkGridFilters None None None None None.

(** Two unranked candidates with AI scores 10 ("a") and 20 ("b"), and the
    default options with a selection count of 1. *)
Definition ai_pair_heap : Heap :=
  [mkCandidate "a" "name" JUndef JUndef (JNum 10) JUndef JUndef JUndef
     JUndef JUndef JUndef None None;
   mkCandidate "b" "name" JUndef JUndef (JNum 20) JUndef JUndef JUndef
     JUndef JUndef JUndef None None].

Definition top_one_options : Options :=
  mkOptions 1 GRID_CAPACITY "top-ai" "unranked"
    (Some (mkThreshold (Some 0) (Some 100))) None None.

Definition created (r : CreateResult * World) : option (Session * World) :=
  match r with
  | (Created s, w) => Some (s, w)
  | (NoCandidates _ _, _) => None
  end.

(** Many unranked candidates with empty scores, all passing the default
    filters. *)
Definition many_world (n : nat) : World :=
  mkWorld (repeat (plain_candidate "c") n) None.

(** The number of persisted ids that name some record of the dataset. *)
Definition resolved_count (h : Heap) (allCandidates : list loc) (ids : list string) : nat :=
  length (filter (fun id => existsb (fun c => String.eqb (ID_xA (deref h c)) id)
                              allCandidates) ids).

(** * Properties *)

Example parseInt_dec : parseInt (JStr "  42") = Some 42.
Proof. reflexivity. Qed.
Example parseInt_prefix : parseInt (JStr "12abc") = Some 12.
Proof. reflexivity. Qed.
Example parseInt_hex : parseInt (JStr "-0x1F") = Some (-31).
Proof. reflexivity. Qed.
Example parseInt_nan : parseInt (JStr "abc") = None.
Proof. reflexivity. Qed.
Example initGrid_nine : length (availableCells initGrid) = 9%nat.
Proof. reflexivity. Qed.
(** The first draw of [mulberry32(1)] is 0.6270739405881613 * 2^32. *)
Example mulberry32_first : mulberry32_next 1 = (1831565814, 2693262067).
Proof. reflexivity. Qed.

(** ** Score threshold *)

Lemma keep_iff (min max : Z) (v : jval) :
  ai_threshold_keep min max v = true <-> kept_by min max v.
Proof.
  unfold ai_threshold_keep, kept_by.
  destruct (is_empty_val v) eqn:E.
  - rewrite andb_true_iff, !Z.eqb_eq. tauto.
  - destruct v as [| |s|z|s|b]; simpl in *; try discriminate;
      [| rewrite andb_true_iff, !Z.leb_le; tauto
       | | split; [discriminate | contradiction]];
      (destruct (parseInt_string s) as [n|];
       [ rewrite andb_true_iff, !Z.leb_le; split;
         [ intros H; exists n; auto
         | intros [n' [Hn H]]; inversion Hn; subst; exact H ]
       | split; [discriminate | intros [n [Hn _]]; discriminate] ]).
Qed.

Lemma digit_value_decimal (c : ascii) :
  is_decimal_digit c = true ->
  digit_value 10 c = Some (Z.of_nat (nat_of_ascii c) - 48).
Proof.
  unfold is_decimal_digit, digit_value. intros H. cbv zeta.
  apply andb_true_iff in H as [H1 H2]. apply Nat.leb_le in H1, H2.
  assert (E1 : (48 <=? Z.of_nat (nat_of_ascii c)) && (Z.of_nat (nat_of_ascii c) <=? 57)
               = true) by (apply andb_true_iff; split; apply Z.leb_le; lia).
  rewrite E1.
  assert (E2 : (Z.of_nat (nat_of_ascii c) - 48 <? 10) = true) by (apply Z.ltb_lt; lia).
  rewrite E2. reflexivity.
Qed.

Lemma digit_cases (c : ascii) :
  is_decimal_digit c = true ->
  c = "0"%char \/ c = "1"%char \/ c = "2"%char \/ c = "3"%char \/ c = "4"%char \/
  c = "5"%char \/ c = "6"%char \/ c = "7"%char \/ c = "8"%char \/ c = "9"%char.
Proof.
  unfold is_decimal_digit. intros H.
  apply andb_true_iff in H as [H1 H2]. apply Nat.leb_le in H1, H2.
  rewrite <- (ascii_nat_embedding c).
  assert (Hn : nat_of_ascii c = 48%nat \/ nat_of_ascii c = 49%nat \/
               nat_of_ascii c = 50%nat \/ nat_of_ascii c = 51%nat \/
               nat_of_ascii c = 52%nat \/ nat_of_ascii c = 53%nat \/
               nat_of_ascii c = 54%nat \/ nat_of_ascii c = 55%nat \/
               nat_of_ascii c = 56%nat \/ nat_of_ascii c = 57%nat) by lia.
  repeat (destruct Hn as [Hn|Hn];
          [rewrite Hn; repeat first [left; reflexivity | right]; reflexivity|]).
  rewrite Hn. repeat right. reflexivity.
Qed.

(** Reading digits through a decimal string up to a point. *)
Lemma read_digits_point (p q : string) (acc : Z) :
  all_decimal p = true ->
  read_digits 10 (p ++ String "." q) acc true = Some (decimal_acc p acc).
Proof.
  revert acc. induction p as [|c r IH]; intros acc Hd; [reflexivity|].
  simpl in Hd. apply andb_true_iff in Hd as [Hc Hr].
  simpl. rewrite (digit_value_decimal c Hc). apply IH. exact Hr.
Qed.

(** [parseInt] of a plain decimal numeral with a fraction, such as "50.5"
    or "-0.25", is its integer part. *)
Lemma parseInt_point (neg : bool) (p q : string) :
  p <> EmptyString -> all_decimal p = true ->
  parseInt_string ((if neg then String "-" p else p) ++ String "." q)
  = Some (if neg then - decimal_value p else decimal_value p).
Proof.
  intros Hne Hd. destruct p as [|c r]; [contradiction|].
  pose proof Hd as Hd'. simpl in Hd'. apply andb_true_iff in Hd' as [Hc Hr].
  unfold decimal_value.
  destruct (digit_cases c Hc) as [->|[->|[->|[->|[->|[->|[->|[->|[->| -> ]]]]]]]]];
  (destruct r as [|c' r'];
   [ destruct neg; reflexivity
   | simpl in Hr; apply andb_true_iff in Hr as [Hc' Hr'];
     destruct (digit_cases c' Hc')
       as [->|[->|[->|[->|[->|[->|[->|[->|[->| -> ]]]]]]]]];
     destruct neg; unfold parseInt_string; simpl;
     rewrite read_digits_point by exact Hr'; simpl;
     destruct (decimal_acc r' _); reflexivity ]).
Qed.

(** C7 (as stated): with the threshold [0, 50] the stage keeps a record
    whose score is the non-numeric string "12abc", and one whose score is the
    number 50.5, which lies outside [0, 50]. *)
Lemma ai_threshold_parseInt_kept :
  applyAIScoreThreshold (one_heap (JStr "12abc")) [O]
    (Some (mkThreshold (Some 0) (Some 50))) = [O] /\
  applyAIScoreThreshold (one_heap (JNumeral "50.5")) [O]
    (Some (mkThreshold (Some 0) (Some 50))) = [O].
Proof. split; reflexivity. Qed.

(** C7 (amended): for an explicit threshold [{min, max}], the stage keeps
    exactly the candidates whose score is empty and the range is [0, 100],
    or from whose score [parseInt] reads an integer in [min, max]: an
    integer score itself, the integer a string starts with (after white
    space, a sign and a 0x prefix), or the integer part of a non-integer
    number written as a decimal numeral such as 50.5; every other value is
    dropped; the order is kept. *)
Theorem ai_threshold_filter_spec (h : Heap) (cs : list loc) (min max : Z) :
  applyAIScoreThreshold h cs (Some (mkThreshold (Some min) (Some max)))
  = filter (fun c => ai_threshold_keep min max (AI_Rank_xB (deref h c))) cs /\
  (forall c, In c (applyAIScoreThreshold h cs (Some (mkThreshold (Some min) (Some max))))
             <-> In c cs /\ kept_by min max (AI_Rank_xB (deref h c))) /\
  (forall c (neg : bool) (p q : string),
     p <> EmptyString -> all_decimal p = true ->
     AI_Rank_xB (deref h c)
       = JNumeral ((if neg then String "-" p else p) ++ String "." q) ->
     (In c (applyAIScoreThreshold h cs (Some (mkThreshold (Some min) (Some max))))
      <-> In c cs /\
          min <= (if neg then - decimal_value p else decimal_value p) <= max)).
Proof.
  split; [reflexivity|]. split.
  - intros c. simpl. rewrite filter_In, keep_iff. tauto.
  - intros c neg p q Hne Hd Hv. simpl. rewrite filter_In, Hv.
    unfold ai_threshold_keep. cbn [is_empty_val parseInt].
    rewrite (parseInt_point neg p q Hne Hd), andb_true_iff, !Z.leb_le. tauto.
Qed.

Lemma ai_threshold_filter_spec_witness :
  "50"%string <> EmptyString /\ all_decimal "50"%string = true /\
  AI_Rank_xB (deref (one_heap (JNumeral "50.5")) O) = JNumeral ("50" ++ String "." "5")%string /\
  (In O (applyAIScoreThreshold (one_heap (JNumeral "50.5")) [O]
           (Some (mkThreshold (Some 0) (Some 50))))
   <-> In O [O] /\ 0 <= decimal_value "50"%string <= 50).
Proof.
  assert (Hne : "50"%string <> EmptyString) by discriminate.
  assert (Hd : all_decimal "50"%string = true) by reflexivity.
  assert (Hv : AI_Rank_xB (deref (one_heap (JNumeral "50.5")) O)
               = JNumeral ("50" ++ String "." "5")%string) by reflexivity.
  split; [exact Hne|]. split; [exact Hd|]. split; [exact Hv|].
  exact (proj2 (proj2 (ai_threshold_filter_spec (one_heap (JNumeral "50.5")) [O] 0 50))
           O false "50"%string "5"%string Hne Hd Hv).
Defined.


(** ** Grid partition *)

Lemma coord_eqb_eq (a b : Coord) : coord_eqb a b = true <-> a = b.
Proof.
  destruct a as [a1 a2], b as [b1 b2]. unfold coord_eqb. simpl.
  rewrite andb_true_iff, !Z.eqb_eq. split.
  - intros [-> ->]. reflexivity.
  - intros H. inversion H. auto.
Qed.

Lemma map_has_coord (k : Coord) (m : list (Coord * string)) :
  map_has coord_eqb k m = true <-> In k (map fst m).
Proof.
  unfold map_has. rewrite existsb_exists, in_map_iff. split.
  - intros [[k' v] [Hin Heq]]. apply coord_eqb_eq in Heq. simpl in Heq.
    subst. exists (k, v). auto.
  - intros [[k' v] [Heq Hin]]. simpl in Heq. subst. exists (k, v).
    split; [exact Hin | apply coord_eqb_eq; reflexivity].
Qed.

Lemma map_delete_keys (k : Coord) (m : list (Coord * string)) :
  map fst (map_delete coord_eqb k m)
  = filter (fun x => negb (coord_eqb x k)) (map fst m).
Proof.
  induction m as [|[k' v] m IH]; simpl; [reflexivity|].
  destruct (coord_eqb k' k); simpl; rewrite IH; reflexivity.
Qed.

Lemma perm_remove_nth {A} (d : A) (l : list A) (idx : nat) :
  (idx < length l)%nat -> Permutation l (nth idx l d :: remove_nth idx l).
Proof.
  revert idx. induction l as [|a l IH]; intros idx Hlt; simpl in Hlt; [lia|].
  destruct idx as [|i].
  - reflexivity.
  - unfold remove_nth in *. simpl.
    apply Permutation_trans with (a :: nth i l d :: app (firstn i l) (skipn (S i) l)).
    + constructor. apply IH. lia.
    + apply perm_swap.
Qed.

Lemma perm_filter_out (x : Coord) (l : list Coord) :
  NoDup l -> In x l ->
  Permutation l (x :: filter (fun y => negb (coord_eqb y x)) l).
Proof.
  induction l as [|a l IH]; intros Hnd Hin; [destruct Hin|].
  inversion Hnd as [|? ? Hna Hndl]; subst.
  simpl. destruct (coord_eqb a x) eqn:E.
  - apply coord_eqb_eq in E. subst. simpl. constructor.
    rewrite forallb_filter_id; [reflexivity|].
    apply forallb_forall. intros y Hy. apply negb_true_iff.
    destruct (coord_eqb y x) eqn:E'; [|reflexivity].
    apply coord_eqb_eq in E'. subst. contradiction.
  - simpl. destruct Hin as [Hax|Hin].
    + subst. rewrite (proj2 (coord_eqb_eq x x) eq_refl) in E. discriminate.
    + apply Permutation_trans with (a :: x :: filter (fun y => negb (coord_eqb y x)) l).
      * constructor. apply IH; assumption.
      * apply perm_swap.
Qed.

Lemma all_coords_nodup (rows cols : nat) : NoDup (all_coords rows cols).
Proof.
  unfold all_coords.
  assert (Hcol : forall row, NoDup (map (fun col => (Z.of_nat row, Z.of_nat col)) (seq 0 cols))).
  { intros row. apply Finite.Injective_map_NoDup; [|apply seq_NoDup].
    intros c1 c2 H. inversion H. lia. }
  generalize (seq_NoDup rows 0). generalize (seq 0 rows) as rs.
  induction rs as [|r rs IH]; intros Hnd; simpl; [constructor|].
  inversion Hnd as [|? ? Hnr Hndr]; subst.
  apply NoDup_app; [apply Hcol | apply IH; exact Hndr|].
  intros [x y] Hin1 Hin2.
  apply in_map_iff in Hin1. destruct Hin1 as [c1 [E1 _]].
  apply in_flat_map in Hin2. destruct Hin2 as [r' [Hr' Hin2]].
  apply in_map_iff in Hin2. destruct Hin2 as [c2 [E2 _]].
  rewrite <- E2 in E1. inversion E1. assert (r = r') by lia. subst. contradiction.
Qed.

Lemma assign_partition (full : list Coord) (g : Grid) (cid : string) (idx : nat) :
  NoDup full -> grid_partition full g ->
  grid_partition full (snd (assignGridCell cid idx g)).
Proof.
  intros Hfull Hp. unfold assignGridCell.
  destruct (availableCells g) as [|a0 av] eqn:Eav; [exact Hp|].
  destruct (Nat.ltb idx (length (a0 :: av))) eqn:Elt; [|exact Hp].
  apply Nat.ltb_lt in Elt. unfold grid_partition in *.
  cbn [snd cells availableCells]. rewrite Eav in Hp.
  set (cell := nth idx (a0 :: av) (0, 0)).
  assert (Hnd : NoDup (app (map fst (cells g)) (a0 :: av)))
    by (eapply Permutation_NoDup; [symmetry; exact Hp | exact Hfull]).
  assert (Hin : In cell (a0 :: av)) by (apply nth_In; exact Elt).
  assert (Hnk : map_has coord_eqb cell (cells g) = false).
  { destruct (map_has coord_eqb cell (cells g)) eqn:E; [|reflexivity].
    apply map_has_coord in E. exfalso.
    clear -Hnd E Hin.
    induction (map fst (cells g)) as [|k ks IH]; [destruct E|].
    simpl in Hnd. inversion Hnd as [|? ? Hk Hks]; subst.
    destruct E as [E|E].
    - subst. apply Hk. apply in_or_app. right. exact Hin.
    - apply IH; assumption. }
  unfold map_set. fold cell. rewrite Hnk. rewrite map_app. simpl.
  rewrite <- app_assoc. simpl.
  eapply Permutation_trans; [|exact Hp].
  apply Permutation_app_head. symmetry. apply perm_remove_nth. exact Elt.
Qed.

Lemma release_partition (full : list Coord) (g : Grid) (row col : Z) :
  NoDup full -> grid_partition full g ->
  grid_partition full (releaseGridCell row col g).
Proof.
  intros Hfull Hp. unfold releaseGridCell.
  destruct (map_has coord_eqb (row, col) (cells g)) eqn:E; [|exact Hp].
  apply map_has_coord in E. unfold grid_partition in *.
  cbn [cells availableCells]. rewrite map_delete_keys.
  assert (Hnd : NoDup (map fst (cells g)))
    by (eapply NoDup_app_remove_r, Permutation_NoDup; [symmetry; exact Hp | exact Hfull]).
  eapply Permutation_trans; [|exact Hp].
  rewrite app_assoc.
  eapply Permutation_trans; [symmetry; apply Permutation_cons_append|].
  rewrite app_comm_cons. apply Permutation_app_tail. symmetry.
  apply perm_filter_out; assumption.
Qed.

Lemma run_grid_partition (full : list Coord) (g : Grid) (ops : list grid_call) :
  NoDup full -> grid_partition full g -> grid_partition full (run_grid g ops).
Proof.
  revert g. induction ops as [|op ops IH]; intros g Hfull Hp; simpl; [exact Hp|].
  apply IH; [exact Hfull|]. destruct op; simpl.
  - apply assign_partition; assumption.
  - apply release_partition; assumption.
Qed.

(** C4: after [initGrid] (here for any [rows] by [cols] loop bounds; the code
    uses [GRID_SIZE] by [GRID_SIZE]) and any sequence of [assignGridCell]
    and [releaseGridCell] calls, the keys of [cells] followed by
    [availableCells] are a permutation of the full coordinate space and hold
    no coordinate twice: every coordinate is in exactly one of the two. *)
Theorem grid_partition_invariant (rows cols : nat) (ops : list grid_call) :
  let g := run_grid (initGrid_dims rows cols) ops in
  Permutation (app (map fst (cells g)) (availableCells g)) (all_coords rows cols) /\
  NoDup (app (map fst (cells g)) (availableCells g)).
Proof.
  intros g.
  assert (Hp : grid_partition (all_coords rows cols) g).
  { apply run_grid_partition; [apply all_coords_nodup|].
    unfold grid_partition. reflexivity. }
  split; [exact Hp|].
  eapply Permutation_NoDup; [symmetry; exact Hp | apply all_coords_nodup].
Qed.

(** ** Scoring and skipping *)

Lemma map_has_str_keys {V} (k : string) (m : list (string * V)) :
  map_has String.eqb k m = existsb (fun x => String.eqb x k) (map fst m).
Proof.
  induction m as [|[k' v] m IH]; simpl; [reflexivity|]. rewrite IH. reflexivity.
Qed.

Lemma map_replace_keys {V} (k : string) (v : V) (m : list (string * V)) :
  map fst (map_replace String.eqb k v m) = map fst m.
Proof.
  induction m as [|[k' v'] m IH]; simpl; [reflexivity|].
  destruct (String.eqb k' k); simpl; [reflexivity | rewrite IH; reflexivity].
Qed.

Lemma map_has_set {V} (k k' : string) (v : V) (m : list (string * V)) :
  map_has String.eqb k' (map_set String.eqb k v m)
  = map_has String.eqb k' m || String.eqb k k'.
Proof.
  unfold map_set. destruct (map_has String.eqb k m) eqn:E.
  - rewrite !map_has_str_keys, map_replace_keys.
    rewrite <- !map_has_str_keys.
    destruct (String.eqb k k') eqn:Ek; [|symmetry; apply orb_false_r].
    apply String.eqb_eq in Ek. subst. rewrite E. reflexivity.
  - rewrite !map_has_str_keys, map_app, existsb_app. simpl.
    rewrite String.eqb_sym, orb_false_r. reflexivity.
Qed.

Lemma map_get_none {V} (k : string) (m : list (string * V)) :
  map_has String.eqb k m = false -> map_get String.eqb k m = None.
Proof.
  induction m as [|[k' v] m IH]; simpl; [reflexivity|].
  destruct (String.eqb k' k); [discriminate | exact IH].
Qed.

Lemma map_get_set_new {V} (k : string) (v : V) (m : list (string * V)) :
  map_has String.eqb k m = false ->
  map_get String.eqb k (map_set String.eqb k v m) = Some v.
Proof.
  intros H. unfold map_set. rewrite H.
  induction m as [|[k' v'] m IH]; simpl in *.
  - rewrite String.eqb_refl. reflexivity.
  - destruct (String.eqb k' k); [discriminate | exact (IH H)].
Qed.

Lemma set_has_add (k k' : string) (u : list string) :
  set_has k' (set_add k u) = set_has k' u || String.eqb k' k.
Proof.
  unfold set_add. destruct (set_has k u) eqn:E.
  - destruct (String.eqb k' k) eqn:Ek; [|apply eq_sym, orb_false_r].
    apply String.eqb_eq in Ek. subst. rewrite E. reflexivity.
  - unfold set_has. rewrite existsb_app. simpl. rewrite orb_false_r. reflexivity.
Qed.

(** [save_and_check] only sets [completedAt]. *)
Lemma save_and_check_fields (w : World) (s : Session) (now : Z) :
  let '(_, s', _) := save_and_check w s now in
  scores s' = scores s /\ undecided s' = undecided s /\
  selectedCandidates s' = selectedCandidates s /\
  (completedAt s' = completedAt s \/ completedAt s' = Some now).
Proof.
  unfold save_and_check. destruct (evaluation_complete s); simpl; auto.
Qed.

(** C6: [scoreCandidate] on an id already in [scores] fails, leaving the
    session (hence the stored entry) and the world untouched; on a new id it
    succeeds and stores [{score, timestamp: now, waveNumber:
    currentBatchIndex + 1}]. *)
Theorem scoreCandidate_reject_or_record (w : World) (s : Session)
    (id : string) (v : jval) (now : Z) :
  (map_has String.eqb id (scores s) = true ->
   let '(r, s', w') := scoreCandidate w s id v now in
   success r = false /\ s' = s /\ w' = w /\
   map_get String.eqb id (scores s') = map_get String.eqb id (scores s)) /\
  (map_has String.eqb id (scores s) = false ->
   let '(r, s', _) := scoreCandidate w s id v now in
   success r = true /\
   map_get String.eqb id (scores s')
   = Some (mkScoreEntry v now (currentBatchIndex s + 1) false)).
Proof.
  split; intros H; unfold scoreCandidate; rewrite H.
  - auto.
  - set (s1 := with_scores s _).
    generalize (save_and_check_fields w s1 now).
    unfold save_and_check. destruct (evaluation_complete s1); simpl;
      intros [Hsc _]; (split; [reflexivity|]); simpl;
      apply map_get_set_new; exact H.
Qed.

(** C10: on an id not yet in [scores], [scoreCandidate] succeeds whatever
    the score value is (any JavaScript value, in range or not) and stores
    it as given. *)
Theorem scoreCandidate_no_validation (w : World) (s : Session)
    (id : string) (v : jval) (now : Z) :
  map_has String.eqb id (scores s) = false ->
  let '(r, s', _) := scoreCandidate w s id v now in
  success r = true /\
  option_map score (map_get String.eqb id (scores s')) = Some v.
Proof.
  intros H. generalize (proj2 (scoreCandidate_reject_or_record w s id v now) H).
  destruct (scoreCandidate w s id v now) as [[r s'] w'].
  intros [Hr Hg]. rewrite Hg. auto.
Qed.

Lemma scoreCandidate_no_validation_witness :
  match created (createSession demo_world [O; 1%nat] no_options 1000) with
  | Some (s, w) =>
      map_has String.eqb "a"%string (scores s) = false /\
      (let '(r, s', _) := scoreCandidate w s "a"%string (JStr "not a score"%string) 1001 in
       success r = true /\
       option_map score (map_get String.eqb "a"%string (scores s')) = Some (JStr "not a score"%string))
  | None => False
  end.
Proof.
  destruct (created (createSession demo_world [O; 1%nat] no_options 1000))
    as [[s w]|] eqn:E; [|vm_compute in E; discriminate].
  assert (H : map_has String.eqb "a"%string (scores s) = false)
    by (vm_compute in E; injection E as <- <-; reflexivity).
  split; [exact H|].
  apply scoreCandidate_no_validation. exact H.
Defined.

(** ** Completion *)

(** C2 (as stated): after "a" is scored and "b" skipped the session is
    completed; scoring "b" afterwards still succeeds and adds "b" to
    [scores]. *)
Lemma completed_session_still_mutable :
  match created (createSession demo_world [O; 1%nat] no_options 1000) with
  | Some (s, w) =>
      let '(s1, w1) := run_engine w s
          [(CallScore "a"%string (JNum 2), 1001); (CallSkip "b"%string, 1002)] in
      let '(r, s2, _) := scoreCandidate w1 s1 "b"%string (JNum 3) 1003 in
      completedAt s1 = Some 1002 /\
      map_has String.eqb "b"%string (scores s1) = false /\
      success r = true /\
      map_has String.eqb "b"%string (scores s2) = true
  | None => False
  end.
Proof. vm_compute. repeat split. Qed.

(** C2 (amended): [scoreCandidate] and [skipCandidate] never set a non-null
    [completedAt] back to null (it may be refreshed to the current time),
    but neither checks [completedAt]: on a completed session scoring an id
    not yet in [scores] succeeds and adds it to [scores], and skipping
    succeeds and adds the id to [undecided]. *)
Theorem completedAt_stays_set (w : World) (s : Session) (id : string)
    (v : jval) (now : Z) :
  completedAt s <> None ->
  (let '(r, s', _) := scoreCandidate w s id v now in
   completedAt s' <> None /\
   (map_has String.eqb id (scores s) = false ->
    success r = true /\ map_has String.eqb id (scores s') = true)) /\
  (let '(r, s', _) := skipCandidate w s id now in
   completedAt s' <> None /\ success r = true /\
   set_has id (undecided s') = true).
Proof.
  intros H. split.
  - unfold scoreCandidate. destruct (map_has String.eqb id (scores s)) eqn:E.
    + split; [exact H | discriminate].
    + unfold save_and_check. destruct (evaluation_complete _); simpl;
        (split; [try discriminate; exact H|]); intros _;
        (split; [reflexivity|]); rewrite map_has_set, String.eqb_refl;
        apply orb_true_r.
  - unfold skipCandidate, save_and_check.
    destruct (evaluation_complete _); simpl;
      (split; [try discriminate; exact H|]); (split; [reflexivity|]);
      rewrite set_has_add, String.eqb_refl; apply orb_true_r.
Qed.

Lemma completedAt_stays_set_witness :
  match created (createSession demo_world [O; 1%nat] no_options 1000) with
  | Some (s, w) =>
      let '(s1, w1) := run_engine w s
          [(CallScore "a"%string (JNum 2), 1001); (CallSkip "b"%string, 1002)] in
      completedAt s1 <> None /\
      (let '(r, s', _) := scoreCandidate w1 s1 "b"%string (JNum 3) 1003 in
       completedAt s' <> None /\
       (map_has String.eqb "b"%string (scores s1) = false ->
        success r = true /\ map_has String.eqb "b"%string (scores s') = true)) /\
      (let '(r, s', _) := skipCandidate w1 s1 "b"%string 1003 in
       completedAt s' <> None /\ success r = true /\
       set_has "b"%string (undecided s') = true)
  | None => False
  end.
Proof.
  destruct (created (createSession demo_world [O; 1%nat] no_options 1000))
    as [[s w]|] eqn:E; [|vm_compute in E; discriminate].
  destruct (run_engine w s _) as [s1 w1] eqn:R.
  assert (H : completedAt s1 <> None).
  { vm_compute in E. injection E as <- <-. vm_compute in R.
    injection R as <- <-. discriminate. }
  split; [exact H|]. apply completedAt_stays_set. exact H.
Defined.

(** ** Exclusivity of scores and undecided *)

Lemma disjoint_iff (s : Session) :
  scores_undecided_disjoint s = true <->
  (forall k, map_has String.eqb k (scores s) = true -> set_has k (undecided s) = false).
Proof.
  unfold scores_undecided_disjoint. rewrite forallb_forall. split.
  - intros H k Hk. rewrite map_has_str_keys, existsb_exists in Hk.
    destruct Hk as [x [Hx Heq]]. apply String.eqb_eq in Heq. subst.
    apply in_map_iff in Hx. destruct Hx as [p [<- Hp]].
    apply negb_true_iff. apply H. exact Hp.
  - intros H p Hp. apply negb_true_iff. apply H.
    rewrite map_has_str_keys, existsb_exists. exists (fst p).
    split; [apply in_map; exact Hp | apply String.eqb_refl].
Qed.

Lemma mass_fold_keys (h : Heap) (wave : Z) (sc : jval) (now : Z) (k : string) :
  forall (l : list loc) acc,
  map_has String.eqb k (fst (fst (fold_left (mass_step h wave sc now) l acc))) = true ->
  map_has String.eqb k (fst (fst acc)) = true \/
  exists c, In c l /\ ID_xA (deref h c) = k.
Proof.
  induction l as [|c l IH]; intros [[m n] ids] H; simpl in *; [left; exact H|].
  destruct (IH _ H) as [H1|[c' [Hin Hid]]].
  - simpl in H1. rewrite map_has_set in H1. apply orb_true_iff in H1.
    destruct H1 as [H1|H1]; [left; exact H1|].
    right. exists c. split; [left; reflexivity|]. apply String.eqb_eq. exact H1.
  - right. exists c'. split; [right; exact Hin | exact Hid].
Qed.

(** The fields a call can change. *)
Lemma engine_apply_fields (w : World) (s : Session) (call : engine_call) (now : Z) :
  let s' := fst (engine_apply w s call now) in
  selectedCandidates s' = selectedCandidates s /\
  match call with
  | CallScore _ _ | CallSkip _ | CallMassScore _ _ _ _ => True
  | _ => scores s' = scores s /\ undecided s' = undecided s
  end.
Proof.
  destruct call; simpl.
  - unfold scoreCandidate. destruct (map_has _ _ _); [auto|].
    generalize (save_and_check_fields w (with_scores s
      (map_set String.eqb candidateId (mkScoreEntry score0 now (currentBatchIndex s + 1) false)
         (scores s))) now).
    destruct (save_and_check _ _ _) as [[r s'] w']. simpl. intuition.
  - unfold skipCandidate.
    generalize (save_and_check_fields w (with_undecided s (set_add candidateId (undecided s))) now).
    destruct (save_and_check _ _ _) as [[r s'] w']. simpl. intuition.
  - unfold massScoreByAttribute.
    destruct (fold_left _ _ _) as [[sc n] ids].
    destruct (evaluation_complete _); simpl; auto.
  - unfold advanceToNextBatch. destruct (more_batches _ _ _); simpl; auto.
  - unfold getNextBatchWithGridPositions.
    destruct (place_batch _ _ _ _) as [[h g] b]. simpl. auto.
  - unfold removeFromBatch. simpl. auto.
  - unfold replaceInGrid.
    destruct (find _ _) as [d|]; [|simpl; auto].
    destruct (gridRow (deref (w_heap w) d)), (gridCol (deref (w_heap w) d));
      try (simpl; auto; fail).
    destruct (find _ (selectedCandidates s)) as [n|]; [|simpl; auto].
    destruct (alloc (w_heap w) _). simpl. auto.
Qed.

(** C1 (as stated): skipping "a" and then scoring it puts "a" both in
    [scores] and in [undecided]. *)
Lemma skip_then_score_overlaps :
  match created (createSession demo_world [O; 1%nat] no_options 1000) with
  | Some (s, w) =>
      let '(s', _) := run_engine w s
          [(CallSkip "a"%string, 1001); (CallScore "a"%string (JNum 2), 1002)] in
      map_has String.eqb "a"%string (scores s') = true /\
      set_has "a"%string (undecided s') = true /\
      scores_undecided_disjoint s' = false
  | None => False
  end.
Proof. vm_compute. repeat split. Qed.

(** C1 (amended): a created session has disjoint [scores] and [undecided],
    and every call that respects exclusivity (score an id not undecided,
    skip an id not scored, mass-score no undecided record, or any batch,
    grid or advance call) keeps them disjoint. *)
Theorem exclusivity_preserved :
  (forall (w : World) (all : list loc) (o : UserOptions) (now : Z) s w',
     createSession w all o now = (Created s, w') ->
     scores_undecided_disjoint s = true) /\
  (forall (w : World) (s : Session) (call : engine_call) (now : Z),
     scores_undecided_disjoint s = true ->
     respects_exclusivity (w_heap w) s call = true ->
     scores_undecided_disjoint (fst (engine_apply w s call now)) = true).
Proof.
  split.
  - intros w all o now s w' H. unfold createSession in H.
    destruct (filterCandidates _ _ _ _); [discriminate|].
    injection H as <- _. reflexivity.
  - intros w s call now Hd Hr. rewrite disjoint_iff in *.
    generalize (engine_apply_fields w s call now). intros [_ Hf].
    destruct call as [id v|id|ty av sc nodes| |d|id|id]; simpl in Hr;
      try (rewrite (proj1 Hf), (proj2 Hf); exact Hd).
    + simpl. unfold scoreCandidate. destruct (map_has _ id (scores s)) eqn:Eh; [exact Hd|].
      set (s1 := with_scores s _).
      generalize (save_and_check_fields w s1 now).
      destruct (save_and_check w s1 now) as [[r s'] w'].
      intros [Hs [Hu _]]. simpl. intros k Hk. rewrite Hu. rewrite Hs in Hk. simpl in *.
      rewrite map_has_set in Hk. apply orb_true_iff in Hk. destruct Hk as [Hk|Hk].
      * apply Hd. exact Hk.
      * apply String.eqb_eq in Hk. subst. apply negb_true_iff. exact Hr.
    + simpl. unfold skipCandidate.
      set (s1 := with_undecided s _).
      generalize (save_and_check_fields w s1 now).
      destruct (save_and_check w s1 now) as [[r s'] w'].
      intros [Hs [Hu _]]. simpl. intros k Hk. rewrite Hu. rewrite Hs in Hk. simpl in *.
      rewrite set_has_add. rewrite (Hd k Hk). simpl.
      destruct (String.eqb k id) eqn:E; [|reflexivity].
      apply String.eqb_eq in E. subst. rewrite Hk in Hr. discriminate.
    + simpl. unfold massScoreByAttribute.
      set (f := mass_step _ _ _ _).
      set (matching := filter _ _).
      generalize (mass_fold_keys (w_heap w) (currentBatchIndex s + 1) sc now).
      fold f. intros Hfold.
      destruct (fold_left f matching (scores s, O, [])) as [[m n] ids] eqn:Ef.
      assert (Hm : forall k, map_has String.eqb k m = true -> set_has k (undecided s) = false).
      { intros k Hk. specialize (Hfold k matching (scores s, O, [])).
        rewrite Ef in Hfold. simpl in Hfold. destruct (Hfold Hk) as [H1|[c [Hin Hid]]].
        - apply Hd. exact H1.
        - subst k. unfold matching in Hin. apply filter_In in Hin.
          destruct Hin as [Hin Hat]. rewrite forallb_forall in Hr.
          specialize (Hr c Hin). rewrite Hat in Hr. simpl in Hr.
          apply negb_true_iff. exact Hr. }
      destruct (evaluation_complete _); simpl; exact Hm.
Qed.

(** ** Selection policy and truncation *)

Lemma length_list_set {A} (l : list A) (i : nat) (x : A) :
  length (list_set l i x) = length l.
Proof.
  revert i. induction l as [|y l IH]; intros [|i]; simpl; auto.
Qed.

Lemma nth_list_set_eq {A} (l : list A) (i : nat) (x d : A) :
  (i < length l)%nat -> nth i (list_set l i x) d = x.
Proof.
  revert i. induction l as [|y l IH]; intros [|i] H; simpl in *; try lia; auto
    with arith.
Qed.

Lemma nth_list_set_neq {A} (l : list A) (i j : nat) (x d : A) :
  i <> j -> nth j (list_set l i x) d = nth j l d.
Proof.
  revert i j. induction l as [|y l IH]; intros [|i] [|j] H; simpl; auto; try lia.
Qed.

Section Shuffle.
Context {A : Type} (eq_dec : forall x y : A, {x = y} + {x <> y}).

Definition ind (x y : A) : nat := if eq_dec x y then 1 else 0.

Lemma count_list_set (l : list A) (i : nat) (x d y : A) :
  (i < length l)%nat ->
  (count_occ eq_dec (list_set l i x) y + ind (nth i l d) y
   = count_occ eq_dec l y + ind x y)%nat.
Proof.
  revert i. induction l as [|z l IH]; intros [|i] H; simpl in *; try lia.
  - unfold ind. destruct (eq_dec x y), (eq_dec z y); lia.
  - specialize (IH i ltac:(lia)). destruct (eq_dec z y); lia.
Qed.

Lemma swap_perm (d : A) (a : list A) (i j : nat) :
  (i < length a)%nat -> (j < length a)%nat -> Permutation (swap d a i j) a.
Proof.
  intros Hi Hj. apply (Permutation_count_occ eq_dec). intros y.
  unfold swap.
  set (a1 := list_set a i (nth j a d)).
  assert (Hl : length a1 = length a) by apply length_list_set.
  pose proof (count_list_set a i (nth j a d) d y Hi) as H1.
  pose proof (count_list_set a1 j (nth i a d) d y ltac:(lia)) as H2.
  fold a1 in H1.
  destruct (Nat.eq_dec i j) as [->|Hne].
  - unfold a1 in H2 at 2. rewrite nth_list_set_eq in H2 by exact Hi. lia.
  - unfold a1 in H2 at 2. rewrite nth_list_set_neq in H2 by exact Hne. lia.
Qed.
End Shuffle.

Lemma mulberry32_draw_range (seed : Z) : 0 <= snd (mulberry32_next seed) < two32.
Proof.
  unfold mulberry32_next. simpl. unfold js_ushr, u32.
  rewrite Z.shiftr_0_r. apply Z.mod_pos_bound. unfold two32. lia.
Qed.

Lemma fisher_yates_perm (a : list loc) (i : nat) (seed : Z) :
  (i < length a \/ i = O)%nat -> Permutation (fisher_yates O i seed a) a.
Proof.
  revert a seed. induction i as [|i IH]; intros a seed Hi; [reflexivity|].
  cbn [fisher_yates].
  destruct (mulberry32_next seed) as [seed' u] eqn:E.
  pose proof (mulberry32_draw_range seed) as Hu. rewrite E in Hu. cbn [snd] in Hu.
  set (j := Z.to_nat (Z.shiftr (u * Z.of_nat (S (S i))) 32)).
  assert (Hj : (j <= S i)%nat).
  { unfold j. rewrite Z.shiftr_div_pow2 by lia.
    change (2 ^ 32) with two32.
    assert (u * Z.of_nat (S (S i)) / two32 < Z.of_nat (S (S i))).
    { apply Z.div_lt_upper_bound; [unfold two32; lia|].
      unfold two32 in *. nia. }
    assert (0 <= u * Z.of_nat (S (S i)) / two32)
      by (apply Z.div_pos; unfold two32 in *; lia).
    lia. }
  clearbody j.
  assert (Hsi : (S i < length a)%nat) by (destruct Hi; [assumption | discriminate]).
  assert (Hsw : Permutation (swap O a (S i) j) a)
    by (apply (swap_perm Nat.eq_dec); [exact Hsi | exact (Nat.le_lt_trans _ _ _ Hj Hsi)]).
  eapply Permutation_trans; [apply IH|exact Hsw].
  rewrite (Permutation_length Hsw). lia.
Qed.

Lemma shuffle_list_perm (a : list loc) (seed : option Z) (now : Z) :
  Permutation (shuffle_list a seed now) a.
Proof.
  unfold shuffle_list. apply fisher_yates_perm. lia.
Qed.

Lemma sort_insert_perm (cmp : loc -> loc -> Z) (x : loc) (l : list loc) :
  Permutation (sort_insert cmp x l) (x :: l).
Proof.
  induction l as [|y l IH]; simpl; [reflexivity|].
  destruct (cmp x y <=? 0); [reflexivity|].
  eapply Permutation_trans; [constructor; exact IH | apply perm_swap].
Qed.

Lemma js_sort_perm (cmp : loc -> loc -> Z) (l : list loc) :
  Permutation (js_sort cmp l) l.
Proof.
  induction l as [|x l IH]; simpl; [reflexivity|].
  eapply Permutation_trans; [apply sort_insert_perm | constructor; exact IH].
Qed.

(** The array returned by [applySelectionMethod] is a fresh one at the end
    of the store, a permutation of the input; every other array is left as
    it was. *)
Lemma applySelectionMethod_frame (h : Heap) (A : ArrStore) (a : nat)
    (method : string) (seed : option Z) (now : Z) :
  let '(A', r) := applySelectionMethod h A a method seed now in
  r = length A /\ length A' = S (length A) /\
  Permutation (arr A' r) (arr A a) /\
  (forall b, (b < length A)%nat -> arr A' b = arr A b).
Proof.
  unfold applySelectionMethod.
  set (A1 := app A [arr A a]).
  assert (HL : length A1 = S (length A))
    by (unfold A1; rewrite length_app; simpl; lia).
  assert (Hr : arr A1 (length A) = arr A a)
    by (unfold A1, arr; rewrite app_nth2, Nat.sub_diag by lia; reflexivity).
  assert (Hb : forall b, (b < length A)%nat -> arr A1 b = arr A b)
    by (intros b Hb; unfold A1, arr; rewrite app_nth1 by lia; reflexivity).
  assert (Hset : forall X, arr (list_set A1 (length A) X) (length A) = X)
    by (intros X; unfold arr; apply nth_list_set_eq; lia).
  assert (Hoth : forall X b, (b < length A)%nat ->
            arr (list_set A1 (length A) X) b = arr A b)
    by (intros X b H; unfold arr; rewrite nth_list_set_neq by lia; apply Hb; exact H).
  assert (Hgen : forall X, Permutation X (arr A a) ->
            length A = length A /\
            length (list_set A1 (length A) X) = S (length A) /\
            Permutation (arr (list_set A1 (length A) X) (length A)) (arr A a) /\
            (forall b, (b < length A)%nat -> arr (list_set A1 (length A) X) b = arr A b)).
  { intros X HX. rewrite length_list_set, Hset.
    split; [reflexivity | split; [exact HL | split; [exact HX | exact (Hoth X)]]]. }
  destruct (String.eqb method "top-ai").
  { apply Hgen. rewrite <- Hr. apply js_sort_perm. }
  destruct (String.eqb method "bottom-ai").
  { apply Hgen. rewrite <- Hr. apply js_sort_perm. }
  destruct (String.eqb method "random").
  { unfold seededShuffle. apply Hgen. rewrite <- Hr. apply shuffle_list_perm. }
  split; [reflexivity | split; [exact HL | split; [rewrite Hr; reflexivity | exact Hb]]].
Qed.

Lemma slice0_min (l : list loc) (c : Z) :
  0 <= c -> slice0 l (Z.min c (Z.of_nat (length l))) = firstn (Z.to_nat c) l.
Proof.
  intros Hc. unfold slice0.
  destruct (Z.min c (Z.of_nat (length l)) <? 0) eqn:E; [apply Z.ltb_lt in E; lia|].
  destruct (Z.le_ge_cases c (Z.of_nat (length l))) as [Hle|Hge].
  - rewrite Z.min_l by exact Hle. reflexivity.
  - rewrite Z.min_r by lia. rewrite Nat2Z.id.
    rewrite firstn_all, firstn_all2; [reflexivity | lia].
Qed.

(** C3 (as stated): 51 candidates pass the default filters, and with no
    [selectionCount] given the session selects 50 of them. *)
Lemma default_selection_count_is_50 :
  countEligibleCandidates (w_heap (many_world 51)) (seq 0 51)
    (merge_options no_options) = 51%nat /\
  match created (createSession (many_world 51) (seq 0 51) no_options 1000) with
  | Some (s, _) => length (selectedCandidates s) = 50%nat
  | None => False
  end.
Proof. vm_compute. split; reflexivity. Qed.

(** C3 (amended): the session's selected candidates are the first
    [selectionCount] of an ordering of the eligible set, the count
    defaulting to 50 when not given; no engine call changes them later. *)
Theorem createSession_selection (w : World) (all : list loc) (o : UserOptions)
    (now : Z) (s : Session) (w' : World) :
  createSession w all o now = (Created s, w') ->
  0 <= override 50 (u_selectionCount o) ->
  (exists ordered,
     Permutation ordered (eligible (w_heap w) all (merge_options o)) /\
     selectedCandidates s = firstn (Z.to_nat (override 50 (u_selectionCount o))) ordered) /\
  (forall w1 call now1,
     selectedCandidates (fst (engine_apply w1 s call now1)) = selectedCandidates s).
Proof.
  intros H Hc. split.
  - unfold createSession in H.
    destruct (filterCandidates _ _ _ _) as [|c0 cs] eqn:Ef; [discriminate|].
    injection H as <- _. cbn [selectedCandidates]. rewrite <- Ef.
    unfold filterCandidates.
    set (opts := {| selectionCount := _ |}).
    change (eligible (w_heap w) all opts) with (eligible (w_heap w) all (merge_options o)).
    set (cands := eligible (w_heap w) all (merge_options o)).
    generalize (applySelectionMethod_frame (w_heap w) [cands] 0
                  (selectionMethod opts) (randomSeed opts) now).
    destruct (applySelectionMethod _ _ _ _ _ _) as [A r].
    intros [_ [_ [Hp _]]].
    exists (arr A r). split; [exact Hp|].
    change (selectionCount opts) with (override 50 (u_selectionCount o)).
    apply slice0_min. exact Hc.
  - intros w1 call now1. apply engine_apply_fields.
Qed.

Lemma createSession_selection_witness :
  match createSession demo_world [O; 1%nat] no_options 1000 with
  | (Created s, w') =>
      0 <= override 50 (u_selectionCount no_options) /\
      (exists ordered,
         Permutation ordered (eligible (w_heap demo_world) [O; 1%nat]
                                (merge_options no_options)) /\
         selectedCandidates s
         = firstn (Z.to_nat (override 50 (u_selectionCount no_options))) ordered) /\
      (forall w1 call now1,
         selectedCandidates (fst (engine_apply w1 s call now1)) = selectedCandidates s)
  | _ => False
  end.
Proof.
  destruct (createSession demo_world [O; 1%nat] no_options 1000) as [[e sg|s] w'] eqn:E;
    [vm_compute in E; discriminate|].
  assert (Hc : 0 <= override 50 (u_selectionCount no_options)) by (simpl; lia).
  split; [exact Hc|]. exact (createSession_selection _ _ _ _ _ _ E Hc).
Defined.

Lemma random_result (h : Heap) (A : ArrStore) (a : nat) (seed now : Z) :
  (a < length A)%nat ->
  let '(A', r) := applySelectionMethod h A a "random" (Some seed) now in
  arr A' r = fisher_yates O (length (arr A a) - 1) seed (arr A a).
Proof.
  intros Ha. unfold applySelectionMethod. cbn -[arr app list_set length].
  unfold seededShuffle, arr at 1. rewrite nth_list_set_eq
    by (rewrite length_app; simpl; lia).
  unfold shuffle_list, arr. rewrite app_nth2, Nat.sub_diag by lia. reflexivity.
Qed.

(** C8: calling [applySelectionMethod] twice with the method 'random' and the
    same explicit seed (whatever [Date.now()] is at each call) returns two
    fresh arrays with the same order, a permutation of the input; the input
    array keeps its order. *)
Theorem random_selection_reproducible (h : Heap) (A : ArrStore) (a : nat)
    (seed now1 now2 : Z) :
  (a < length A)%nat ->
  let '(A1, r1) := applySelectionMethod h A a "random" (Some seed) now1 in
  let '(A2, r2) := applySelectionMethod h A1 a "random" (Some seed) now2 in
  arr A2 r2 = arr A1 r1 /\ Permutation (arr A1 r1) (arr A a) /\
  arr A1 a = arr A a /\ arr A2 a = arr A a.
Proof.
  intros Ha.
  generalize (random_result h A a seed now1 Ha).
  generalize (applySelectionMethod_frame h A a "random" (Some seed) now1).
  destruct (applySelectionMethod h A a "random" (Some seed) now1) as [A1 r1].
  intros [Hr1 [HL1 [Hp1 Hb1]]] Hres1.
  assert (Ha1 : (a < length A1)%nat) by lia.
  generalize (random_result h A1 a seed now2 Ha1).
  generalize (applySelectionMethod_frame h A1 a "random" (Some seed) now2).
  destruct (applySelectionMethod h A1 a "random" (Some seed) now2) as [A2 r2].
  intros [Hr2 [HL2 [Hp2 Hb2]]] Hres2.
  assert (E1 : arr A1 a = arr A a) by (apply Hb1; exact Ha).
  split; [rewrite Hres2, Hres1, E1; reflexivity|].
  split; [exact Hp1|]. split; [exact E1|].
  rewrite Hb2 by exact Ha1. exact E1.
Qed.

Lemma random_selection_reproducible_witness :
  (0 < length [[0; 1; 2; 3]%nat])%nat /\
  (let '(A1, r1) := applySelectionMethod [] [[0; 1; 2; 3]%nat] 0 "random" (Some 7) 1 in
   let '(A2, r2) := applySelectionMethod [] A1 0 "random" (Some 7) 2 in
   arr A2 r2 = arr A1 r1 /\ Permutation (arr A1 r1) (arr [[0; 1; 2; 3]%nat] 0) /\
   arr A1 0 = arr [[0; 1; 2; 3]%nat] 0 /\ arr A2 0 = arr [[0; 1; 2; 3]%nat] 0).
Proof.
  split; [simpl; lia|].
  apply (random_selection_reproducible [] [[0; 1; 2; 3]%nat] 0 7 1 2). simpl. lia.
Defined.

(** ** Loading a persisted session *)

Lemma map_get_app {V} (k : string) (m1 m2 : list (string * V)) :
  map_get String.eqb k (app m1 m2)
  = match map_get String.eqb k m1 with
    | Some v => Some v
    | None => map_get String.eqb k m2
    end.
Proof.
  induction m1 as [|[k' v'] m1 IH]; simpl; [reflexivity|].
  destruct (String.eqb k' k); [reflexivity | exact IH].
Qed.

Lemma map_get_has {V} (k : string) (m : list (string * V)) :
  map_get String.eqb k m <> None <-> map_has String.eqb k m = true.
Proof.
  induction m as [|[k' v'] m IH]; simpl.
  - split; [intros H; exfalso; apply H; reflexivity | discriminate].
  - destruct (String.eqb k' k); simpl; [split; [reflexivity | discriminate] | exact IH].
Qed.

Lemma map_get_set {V} (k k' : string) (v : V) (m : list (string * V)) :
  map_get String.eqb k (map_set String.eqb k' v m)
  = if String.eqb k' k then Some v else map_get String.eqb k m.
Proof.
  unfold map_set. destruct (map_has String.eqb k' m) eqn:Eh.
  - clear -Eh. induction m as [|[k0 v0] m IH]; simpl in *; [discriminate|].
    destruct (String.eqb k0 k') eqn:E0.
    + apply String.eqb_eq in E0. subst. simpl.
      destruct (String.eqb k' k); reflexivity.
    + simpl. destruct (String.eqb k0 k) eqn:E1.
      * apply String.eqb_eq in E1. subst. rewrite String.eqb_sym, E0. reflexivity.
      * apply IH. exact Eh.
  - rewrite map_get_app. simpl.
    destruct (String.eqb k' k) eqn:E.
    + apply String.eqb_eq in E. subst.
      rewrite (map_get_none k m Eh). reflexivity.
    + destruct (map_get String.eqb k m); reflexivity.
Qed.

Lemma candidate_map_fold (h : Heap) (k : string) (l : loc) :
  forall (all : list loc) (m0 : list (string * loc)),
  map_get String.eqb k
    (fold_left (fun m c => map_set String.eqb (ID_xA (deref h c)) c m) all m0) = Some l ->
  map_get String.eqb k m0 = Some l \/ (In l all /\ ID_xA (deref h l) = k).
Proof.
  induction all as [|c all IH]; intros m0 H; simpl in *; [left; exact H|].
  destruct (IH _ H) as [H1|[Hin Hid]]; [|right; auto].
  rewrite map_get_set in H1. destruct (String.eqb (ID_xA (deref h c)) k) eqn:E.
  - injection H1 as <-. right. split; [left; reflexivity|].
    apply String.eqb_eq. exact E.
  - left. exact H1.
Qed.

(** [candidateMap] maps an id to a record of the dataset carrying that id. *)
Lemma candidate_map_sound (h : Heap) (all : list loc) (k : string) (l : loc) :
  map_get String.eqb k (candidate_map h all) = Some l ->
  In l all /\ ID_xA (deref h l) = k.
Proof.
  intros H. destruct (candidate_map_fold h k l all [] H) as [H1|H1];
    [discriminate | exact H1].
Qed.

Lemma candidate_map_has (h : Heap) (k : string) :
  forall (all : list loc) (m0 : list (string * loc)),
  map_has String.eqb k
    (fold_left (fun m c => map_set String.eqb (ID_xA (deref h c)) c m) all m0)
  = map_has String.eqb k m0 ||
    existsb (fun c => String.eqb (ID_xA (deref h c)) k) all.
Proof.
  induction all as [|c all IH]; intros m0; simpl; [apply eq_sym, orb_false_r|].
  rewrite IH, map_has_set, orb_assoc. reflexivity.
Qed.

Lemma resolved_length (h : Heap) (all : list loc) (ids : list string) :
  length (flat_map (fun id => match map_get String.eqb id (candidate_map h all) with
                              | Some c => [c] | None => [] end) ids)
  = resolved_count h all ids.
Proof.
  unfold resolved_count. induction ids as [|id ids IH]; simpl; [reflexivity|].
  rewrite length_app, IH.
  assert (E : existsb (fun c => String.eqb (ID_xA (deref h c)) id) all
              = map_has String.eqb id (candidate_map h all)).
  { unfold candidate_map. rewrite candidate_map_has. reflexivity. }
  rewrite E. destruct (map_get String.eqb id (candidate_map h all)) eqn:G.
  - assert (Hh : map_has String.eqb id (candidate_map h all) = true)
      by (apply map_get_has; rewrite G; discriminate).
    rewrite Hh. reflexivity.
  - assert (Hh : map_has String.eqb id (candidate_map h all) = false).
    { destruct (map_has String.eqb id (candidate_map h all)) eqn:X; [|reflexivity].
      apply map_get_has in X. contradiction. }
    rewrite Hh. reflexivity.
Qed.

(** C5: a stored session that is not completed and of whose [N] selected ids
    fewer than [0.9 * N] (that is, [10 * resolved < 9 * N]) name a record of
    the current dataset is not loaded: [loadSession] returns null and clears
    the storage slot; the records are left alone. *)
Theorem loadSession_stale (w : World) (all : list loc) (data : Persisted) :
  w_store w = Some data ->
  p_completedAt data = None ->
  10 * Z.of_nat (resolved_count (w_heap w) all (p_selectedIds data))
    < 9 * Z.of_nat (length (p_selectedIds data)) ->
  loadSession w all = (None, clearSession w) /\
  w_store (clearSession w) = None /\ w_heap (clearSession w) = w_heap w.
Proof.
  intros Hs Hc Hlt. split; [|split; reflexivity].
  unfold loadSession. rewrite Hs, Hc. cbv zeta.
  rewrite resolved_length.
  apply Z.ltb_lt in Hlt. rewrite Hlt. reflexivity.
Qed.

Lemma loadSession_stale_witness :
  match created (createSession demo_world [O; 1%nat] no_options 1000) with
  | Some (s, w) =>
      match w_store w with
      | Some data =>
          p_completedAt data = None /\
          10 * Z.of_nat (resolved_count (w_heap w) [O] (p_selectedIds data))
            < 9 * Z.of_nat (length (p_selectedIds data)) /\
          loadSession w [O] = (None, clearSession w)
      | None => False
      end
  | None => False
  end.
Proof.
  destruct (created (createSession demo_world [O; 1%nat] no_options 1000))
    as [[s w]|] eqn:E; [|vm_compute in E; discriminate].
  destruct (w_store w) as [data|] eqn:Ew; [|vm_compute in E; injection E as <- <-;
                                              vm_compute in Ew; discriminate].
  assert (Hc : p_completedAt data = None)
    by (vm_compute in E; injection E as <- <-; vm_compute in Ew;
        injection Ew as <-; reflexivity).
  assert (Hlt : 10 * Z.of_nat (resolved_count (w_heap w) [O] (p_selectedIds data))
                < 9 * Z.of_nat (length (p_selectedIds data)))
    by (vm_compute in E; injection E as <- <-; vm_compute in Ew;
        injection Ew as <-; vm_compute; reflexivity).
  split; [exact Hc|]. split; [exact Hlt|].
  exact (proj1 (loadSession_stale w [O] data Ew Hc Hlt)).
Defined.

Lemma list_set_ge {A} (l : list A) (i : nat) (x : A) :
  (length l <= i)%nat -> list_set l i x = l.
Proof.
  revert i. induction l as [|y l IH]; intros [|i] H; simpl in *; try lia; auto.
  rewrite IH; [reflexivity | lia].
Qed.

Lemma with_grid_pos_twice (c : Candidate) (r k r' k' : option Z) :
  with_grid_pos (with_grid_pos c r k) r' k' = with_grid_pos c r' k'.
Proof. reflexivity. Qed.

Lemma restore_batch_app (cm : list (string * loc)) (h : Heap)
    (l1 l2 : list (string * option Z * option Z)) (acc : list loc) :
  restore_batch cm h (app l1 l2) acc
  = let '(h1, acc1) := restore_batch cm h l1 acc in restore_batch cm h1 l2 acc1.
Proof.
  revert h acc. induction l1 as [|[[id r] k] l1 IH]; intros h acc; simpl; [reflexivity|].
  destruct (map_get String.eqb id cm); apply IH.
Qed.

Lemma restore_batch_length (cm : list (string * loc))
    (items : list (string * option Z * option Z)) :
  forall h acc, length (fst (restore_batch cm h items acc)) = length h.
Proof.
  induction items as [|[[id r] k] items IH]; intros h acc; simpl; [reflexivity|].
  destruct (map_get String.eqb id cm); rewrite IH; [apply length_list_set | reflexivity].
Qed.

(** Every record after the restore is the record before it, or that record with
    its grid position replaced. *)
Lemma restore_batch_shape (cm : list (string * loc))
    (items : list (string * option Z * option Z)) :
  forall h acc l,
  deref (fst (restore_batch cm h items acc)) l = deref h l \/
  exists r k, deref (fst (restore_batch cm h items acc)) l = with_grid_pos (deref h l) r k.
Proof.
  induction items as [|[[id r] k] items IH]; intros h acc l; simpl; [left; reflexivity|].
  destruct (map_get String.eqb id cm) as [c|]; [|apply IH].
  assert (Hw : deref (write h c (with_grid_pos (deref h c) r k)) l = deref h l \/
               deref (write h c (with_grid_pos (deref h c) r k)) l
               = with_grid_pos (deref h l) r k).
  { unfold write, deref. destruct (Nat.eq_dec c l) as [<-|Hne].
    - destruct (Nat.lt_ge_cases c (length h)) as [Hl|Hl].
      + right. apply nth_list_set_eq. exact Hl.
      + left. rewrite list_set_ge by exact Hl. reflexivity.
    - left. apply nth_list_set_neq. exact Hne. }
  destruct (IH (write h c (with_grid_pos (deref h c) r k)) (app acc [c]) l)
    as [E|[r' [k' E]]]; rewrite E.
  - destruct Hw as [Hw|Hw]; rewrite Hw;
      [left; reflexivity | right; do 2 eexists; reflexivity].
  - right. destruct Hw as [Hw|Hw]; rewrite Hw; do 2 eexists; reflexivity.
Qed.

Lemma restore_batch_other (cm : list (string * loc)) (l0 : loc)
    (items : list (string * option Z * option Z)) :
  Forall (fun it => map_get String.eqb (fst (fst it)) cm <> Some l0) items ->
  forall h acc, deref (fst (restore_batch cm h items acc)) l0 = deref h l0.
Proof.
  induction items as [|[[id r] k] items IH]; intros Hf h acc; simpl; [reflexivity|].
  inversion Hf as [|? ? Hid Hrest]; subst. simpl in Hid.
  destruct (map_get String.eqb id cm) as [c|]; [|apply IH; exact Hrest].
  rewrite IH by exact Hrest. unfold write, deref. apply nth_list_set_neq.
  intros <-. apply Hid. reflexivity.
Qed.

Lemma restore_batch_acc (cm : list (string * loc))
    (items : list (string * option Z * option Z)) :
  forall h acc l, In l acc -> In l (snd (restore_batch cm h items acc)).
Proof.
  induction items as [|[[id r] k] items IH]; intros h acc l Hin; simpl; [exact Hin|].
  destruct (map_get String.eqb id cm); apply IH; [apply in_or_app; left|]; exact Hin.
Qed.

(** C9 (counterexample): a completed stored session whose current batch holds
    the id ["a"], which resolves to record [0] of the dataset: [loadSession]
    returns null and record [0] keeps no grid position, although the stored
    batch gives ["a"] one. *)
Lemma completed_session_not_restored :
  match created (createSession demo_world [O; 1%nat] no_options 1000) with
  | Some (s, w) =>
      let '(_, w1) := run_engine w s [(CallNextBatch [O; O], 1001);
                                      (CallScore "a"%string (JNum 2), 1002);
                                      (CallSkip "b"%string, 1003)] in
      match w_store w1 with
      | Some data =>
          existsb (fun it => String.eqb (fst (fst it)) "a"%string &&
                             match snd (fst it) with Some _ => true | None => false end)
            (p_currentBatchData data) = true /\
          p_completedAt data <> None /\
          map_get String.eqb "a"%string (candidate_map (w_heap w1) [O; 1%nat]) = Some O /\
          fst (loadSession w1 [O; 1%nat]) = None /\
          gridRow (deref (w_heap (snd (loadSession w1 [O; 1%nat]))) O) = None
      | None => False
      end
  | None => False
  end.
Proof. vm_compute. repeat split; discriminate. Qed.

(** C9 (amended): [loadSession] writes grid positions onto the caller's
    records only when it restores the stored session.  If the stored session
    is completed (a non-zero [completedAt]) or stale (fewer than 0.9 * N of
    its ids resolve), it returns null and writes no record.  Otherwise
    ([completedAt] null or 0, not stale), when the stored batch holds an
    entry [(id0, r, k)] with no later entry for [id0], where [id0] resolves
    to the dataset record [l0], [loadSession] writes [gridRow = r] and
    [gridCol = k] onto the record [l0] itself (the heap keeps its size: no
    copy is made) and puts [l0] into the session's current batch. *)
Theorem loadSession_restores_in_place (w : World) (all : list loc) (data : Persisted)
    (pre post : list (string * option Z * option Z)) (id0 : string) (r k : option Z)
    (l0 : loc) :
  w_store w = Some data ->
  ((match p_completedAt data with Some t => t <> 0 | None => False end \/
    10 * Z.of_nat (resolved_count (w_heap w) all (p_selectedIds data))
      < 9 * Z.of_nat (length (p_selectedIds data))) ->
   fst (loadSession w all) = None /\ w_heap (snd (loadSession w all)) = w_heap w) /\
  ((p_completedAt data = None \/ p_completedAt data = Some 0) ->
   9 * Z.of_nat (length (p_selectedIds data))
     <= 10 * Z.of_nat (resolved_count (w_heap w) all (p_selectedIds data)) ->
   p_currentBatchData data = app pre ((id0, r, k) :: post) ->
   Forall (fun it => fst (fst it) <> id0) post ->
   map_get String.eqb id0 (candidate_map (w_heap w) all) = Some l0 ->
   (l0 < length (w_heap w))%nat ->
   exists s w',
     loadSession w all = (Some s, w') /\
     In l0 all /\
     deref (w_heap w') l0 = with_grid_pos (deref (w_heap w) l0) r k /\
     In l0 (currentBatchCandidates s) /\
     length (w_heap w') = length (w_heap w)).
Proof.
  intros Hs. split.
  { intros Hnot. unfold loadSession. rewrite Hs. cbv zeta.
    destruct (match p_completedAt data with
              | Some t => negb (t =? 0) | None => false end) eqn:Ec;
      [split; reflexivity|].
    destruct Hnot as [Hc|Hlt].
    - destruct (p_completedAt data) as [t|]; [|contradiction].
      apply Z.eqb_neq in Hc. rewrite Hc in Ec. discriminate.
    - rewrite resolved_length. apply Z.ltb_lt in Hlt. rewrite Hlt.
      split; reflexivity. }
  intros Hc Hge Hb Hpost Hl0 Hlen.
  destruct (candidate_map_sound _ _ _ _ Hl0) as [Hin Hid].
  unfold loadSession. rewrite Hs. cbv zeta.
  assert (Hc' : match p_completedAt data with
                | Some t => negb (t =? 0) | None => false end = false)
    by (destruct Hc as [-> | ->]; reflexivity).
  rewrite Hc'.
  rewrite resolved_length.
  assert (Hf : (10 * Z.of_nat (resolved_count (w_heap w) all (p_selectedIds data))
                <? 9 * Z.of_nat (length (p_selectedIds data))) = false)
    by (apply Z.ltb_ge; exact Hge).
  rewrite Hf, Hb, restore_batch_app.
  set (cm := candidate_map (w_heap w) all) in *.
  pose proof (restore_batch_length cm pre (w_heap w) []) as Hlen1.
  pose proof (restore_batch_shape cm pre (w_heap w) [] l0) as Hsh.
  destruct (restore_batch cm (w_heap w) pre []) as [h1 acc1] eqn:E1.
  simpl in Hlen1, Hsh. simpl restore_batch. rewrite Hl0.
  set (h2 := write h1 l0 (with_grid_pos (deref h1 l0) r k)).
  assert (Hoth : Forall (fun it => map_get String.eqb (fst (fst it)) cm <> Some l0) post).
  { eapply Forall_impl; [|exact Hpost]. intros [[i ri] ki] Hne Hg. simpl in *.
    destruct (candidate_map_sound _ _ _ _ Hg) as [_ Hi]. rewrite Hid in Hi.
    apply Hne. symmetry. exact Hi. }
  pose proof (restore_batch_other cm l0 post Hoth h2 (app acc1 [l0])) as Hd.
  pose proof (restore_batch_length cm post h2 (app acc1 [l0])) as Hlen2.
  assert (Hl0in : In l0 (app acc1 [l0])) by (apply in_or_app; right; left; reflexivity).
  pose proof (restore_batch_acc cm post h2 (app acc1 [l0]) l0 Hl0in) as Hacc.
  destruct (restore_batch cm h2 post (app acc1 [l0])) as [h3 acc3] eqn:E3.
  simpl in Hd, Hlen2, Hacc.
  eexists. eexists. split; [reflexivity|]. simpl.
  split; [exact Hin|]. split; [|split; [exact Hacc|]].
  - rewrite Hd. unfold h2, write, deref at 1.
    rewrite nth_list_set_eq by lia.
    destruct Hsh as [E|[r' [k' E]]]; rewrite E; reflexivity.
  - rewrite Hlen2. unfold h2, write. rewrite length_list_set. exact Hlen1.
Qed.

(** The restore half on a session after its first batch, and the null half
    on the same session once completed. *)
Lemma loadSession_restores_in_place_witness :
  match created (createSession demo_world [O; 1%nat] no_options 1000) with
  | Some (s, w) =>
      (let '(_, w1) := run_engine w s [(CallNextBatch [O; O], 1001)] in
       exists s' w', loadSession w1 [O; 1%nat] = (Some s', w') /\
         In O [O; 1%nat] /\
         deref (w_heap w') O
           = with_grid_pos (deref (w_heap w1) O) (Some 0) (Some 0) /\
         In O (currentBatchCandidates s') /\
         length (w_heap w') = length (w_heap w1)) /\
      (let '(_, w2) := run_engine w s [(CallNextBatch [O; O], 1001);
                                       (CallScore "a"%string (JNum 2), 1002);
                                       (CallSkip "b"%string, 1003)] in
       fst (loadSession w2 [O; 1%nat]) = None /\
       w_heap (snd (loadSession w2 [O; 1%nat])) = w_heap w2)
  | None => False
  end.
Proof.
  destruct (created (createSession demo_world [O; 1%nat] no_options 1000))
    as [[s w]|] eqn:E; [|vm_compute in E; discriminate].
  vm_compute in E. injection E as <- <-. split.
  - destruct (run_engine _ _ [(CallNextBatch [O; O], 1001)]) as [s1 w1] eqn:E1.
    vm_compute in E1. injection E1 as <- <-.
    eapply (loadSession_restores_in_place _ [O; 1%nat] _ [] _ "a"%string
              (Some 0) (Some 0) O);
      vm_compute; try reflexivity.
    + left. reflexivity.
    + discriminate.
    + repeat constructor; discriminate.
    + lia.
  - destruct (run_engine _ _ [(CallNextBatch [O; O], 1001);
                              (CallScore "a"%string (JNum 2), 1002);
                              (CallSkip "b"%string, 1003)]) as [s2 w2] eqn:E2.
    vm_compute in E2. injection E2 as <- <-.
    eapply (loadSession_restores_in_place _ [O; 1%nat] _ [] [] "a"%string
              None None O); [reflexivity|].
    left. vm_compute. discriminate.
Defined.

(** ** Batch windows and progress *)

Lemma in_firstn_skipn {A} (x : A) (n m : nat) (l : list A) :
  In x (firstn n (skipn m l)) -> In x l.
Proof.
  intros H. rewrite <- (firstn_skipn m l). apply in_or_app. right.
  rewrite <- (firstn_skipn n (skipn m l)). apply in_or_app. left. exact H.
Qed.

Lemma slice_js_incl {A} (l : list A) (st en : Z) : incl (slice_js l st en) l.
Proof. intros x Hx. unfold slice_js in Hx. eapply in_firstn_skipn. exact Hx. Qed.

Lemma slice_js_length {A} (l : list A) (st en : Z) :
  st <= en -> (length (slice_js l st en) <= Z.to_nat (en - st))%nat.
Proof.
  intros Hle. unfold slice_js. rewrite length_firstn.
  set (len := Z.of_nat (length l)).
  assert (Hlen : 0 <= len) by lia.
  assert (E : (if en <? 0 then Z.max (len + en) 0 else Z.min en len)
              - (if st <? 0 then Z.max (len + st) 0 else Z.min st len) <= en - st).
  { destruct (en <? 0) eqn:E1, (st <? 0) eqn:E2;
      rewrite ?Z.ltb_lt, ?Z.ltb_ge in *; lia. }
  lia.
Qed.

Lemma firstn_min_length {A} (n : nat) (l : list A) :
  firstn (Nat.min n (length l)) l = firstn n l.
Proof.
  destruct (Nat.le_ge_cases n (length l)) as [H|H].
  - rewrite Nat.min_l by exact H. reflexivity.
  - rewrite Nat.min_r by exact H. rewrite firstn_all, firstn_all2 by exact H.
    reflexivity.
Qed.

(** A window [slice(st, st + b)] with [0 <= st] and [0 <= b]. *)
Lemma slice_js_window {A} (l : list A) (st b : Z) :
  0 <= st -> 0 <= b ->
  slice_js l st (st + b) = firstn (Z.to_nat b) (skipn (Z.to_nat st) l).
Proof.
  intros Hs Hb. unfold slice_js.
  assert (E1 : (st <? 0) = false) by (apply Z.ltb_ge; lia).
  assert (E2 : (st + b <? 0) = false) by (apply Z.ltb_ge; lia).
  rewrite E1, E2.
  destruct (Z.le_gt_cases st (Z.of_nat (length l))) as [H|H].
  - rewrite (Z.min_l st) by exact H.
    rewrite <- (firstn_min_length (Z.to_nat b)), length_skipn.
    f_equal. lia.
  - rewrite (Z.min_r st) by lia. rewrite (Z.min_r (st + b)) by lia.
    rewrite !skipn_all2 by lia. rewrite !firstn_nil. reflexivity.
Qed.

Lemma firstn_add_skipn {A} (a c : nat) (l : list A) :
  firstn (a + c) l = app (firstn a l) (firstn c (skipn a l)).
Proof.
  revert l. induction a as [|a IH]; intros [|x l]; simpl; auto.
  - rewrite firstn_nil. reflexivity.
  - f_equal. apply IH.
Qed.

Lemma concat_windows {A} (b : nat) (l : list A) :
  forall m k,
  concat (map (fun i => firstn b (skipn (i * b) l)) (seq k m))
  = firstn (m * b) (skipn (k * b) l).
Proof.
  induction m as [|m IH]; intros k; [reflexivity|].
  cbn [seq map concat]. rewrite IH.
  replace (S k * b)%nat with (b + k * b)%nat by lia.
  rewrite <- skipn_skipn.
  replace (S m * b)%nat with (b + m * b)%nat by lia.
  rewrite firstn_add_skipn. reflexivity.
Qed.

(** X1: [getCurrentBatch] returns at most [batchSize] candidates, all of them
    selected and none of them scored or skipped. *)
Theorem getCurrentBatch_sound (h : Heap) (s : Session) :
  0 <= batchSize s ->
  incl (getCurrentBatch h s) (selectedCandidates s) /\
  Forall (fun c => unprocessed h s c = true) (getCurrentBatch h s) /\
  (length (getCurrentBatch h s) <= Z.to_nat (batchSize s))%nat.
Proof.
  intros Hb. unfold getCurrentBatch. split; [|split].
  - intros x Hx. apply filter_In in Hx. apply (slice_js_incl _ _ _ _ (proj1 Hx)).
  - apply Forall_forall. intros x Hx. apply filter_In in Hx. exact (proj2 Hx).
  - eapply Nat.le_trans; [apply filter_length_le|].
    eapply Nat.le_trans; [apply slice_js_length; lia|]. lia.
Qed.

Lemma getCurrentBatch_sound_witness :
  let s := {| session_id := 0; selectedCandidates := [O; 1%nat; 2%nat];
              selectedIds := ["a"; "b"; "c"]%string; batchSize := 2;
              currentBatchIndex := 1; currentBatchCandidates := [];
              scores := []; undecided := []; startedAt := 0; completedAt := None;
              grid := initGrid; config := DEFAULT_SESSION_OPTIONS |} in
  0 <= batchSize s /\
  incl (getCurrentBatch [] s) (selectedCandidates s) /\
  Forall (fun c => unprocessed [] s c = true) (getCurrentBatch [] s) /\
  (length (getCurrentBatch [] s) <= Z.to_nat (batchSize s))%nat.
Proof.
  intros s. assert (Hb : 0 <= batchSize s) by (simpl; lia).
  split; [exact Hb | exact (getCurrentBatch_sound [] s Hb)].
Defined.

(** X2: With a positive batch size, the windows [0 .. totalWaves - 1] of
    [getCurrentBatch] hand out every unprocessed selected candidate once,
    in selection order. *)
Theorem getCurrentBatch_windows_cover (h : Heap) (s : Session) (m : Z) :
  0 < batchSize s ->
  totalWaves (getProgress (Some s)) = Some m ->
  concat (map (fun i => getCurrentBatch h (with_batch_index s (Z.of_nat i)))
              (seq 0 (Z.to_nat m)))
  = filter (unprocessed h s) (selectedCandidates s).
Proof.
  intros Hb Hm. cbn [getProgress totalWaves] in Hm. unfold js_ceil_div in Hm.
  assert (E : (0 <? batchSize s) = true) by (apply Z.ltb_lt; exact Hb).
  rewrite E in Hm. injection Hm as <-.
  set (b := batchSize s) in *. set (l := selectedCandidates s).
  transitivity (filter (unprocessed h s)
                  (concat (map (fun i => firstn (Z.to_nat b) (skipn (i * Z.to_nat b) l))
                               (seq 0 (Z.to_nat ((Z.of_nat (length l) + b - 1) / b)))))).
  - rewrite <- concat_filter_map, map_map. f_equal. apply map_ext_in.
    intros i _. unfold getCurrentBatch. cbn [currentBatchIndex batchSize
      selectedCandidates with_batch_index]. fold b l.
    rewrite slice_js_window by lia.
    rewrite Z2Nat.inj_mul by lia. rewrite Nat2Z.id. reflexivity.
  - rewrite concat_windows. simpl skipn. rewrite firstn_all2; [reflexivity|].
    set (q := (Z.of_nat (length l) + b - 1) / b).
    assert (Hq : Z.of_nat (length l) <= q * b).
    { pose proof (Z.mod_pos_bound (Z.of_nat (length l) + b - 1) b Hb).
      pose proof (Z.div_mod (Z.of_nat (length l) + b - 1) b ltac:(lia)).
      unfold q. nia. }
    assert (0 <= q) by (unfold q; apply Z.div_pos; lia).
    rewrite <- (Z2Nat.id b) in Hq by lia. rewrite <- (Z2Nat.id q) in Hq by lia.
    rewrite <- Nat2Z.inj_mul in Hq. lia.
Qed.

Lemma getCurrentBatch_windows_cover_witness :
  let s := {| session_id := 0; selectedCandidates := [O; 1%nat; 2%nat];
              selectedIds := ["a"; "b"; "c"]%string; batchSize := 2;
              currentBatchIndex := 0; currentBatchCandidates := [];
              scores := []; undecided := []; startedAt := 0; completedAt := None;
              grid := initGrid; config := DEFAULT_SESSION_OPTIONS |} in
  let h := map plain_candidate ["a"; "b"; "c"]%string in
  0 < batchSize s /\ totalWaves (getProgress (Some s)) = Some 2 /\
  concat (map (fun i => getCurrentBatch h (with_batch_index s (Z.of_nat i)))
              (seq 0 (Z.to_nat 2)))
  = filter (unprocessed h s) (selectedCandidates s).
Proof.
  intros s h. assert (Hb : 0 < batchSize s) by (simpl; lia).
  assert (Hm : totalWaves (getProgress (Some s)) = Some 2) by reflexivity.
  split; [exact Hb|]. split; [exact Hm|].
  exact (getCurrentBatch_windows_cover h s 2 Hb Hm).
Defined.

Lemma firstn_skipn_nonempty {A} (n k : nat) (l : list A) :
  firstn n (skipn k l) <> [] <-> (0 < n /\ k < length l)%nat.
Proof.
  split.
  - intros H. destruct n as [|n]; [simpl in H; congruence|].
    split; [lia|]. destruct (Nat.lt_ge_cases k (length l)) as [Hk|Hk]; [exact Hk|].
    rewrite skipn_all2 in H by exact Hk. rewrite firstn_nil in H. congruence.
  - intros [Hn Hk] H. apply (f_equal (@length A)) in H.
    rewrite length_firstn, length_skipn in H. simpl in H. lia.
Qed.

(** X3: With a positive batch size and a non-negative index,
    [advanceToNextBatch] moves on exactly when the next batch window of the
    selection holds a candidate. *)
Theorem advanceToNextBatch_next_window (w : World) (s : Session) (now : Z) :
  0 < batchSize s -> 0 <= currentBatchIndex s ->
  (fst (fst (advanceToNextBatch w s now)) = true <->
   slice_js (selectedCandidates s) ((currentBatchIndex s + 1) * batchSize s)
     ((currentBatchIndex s + 1) * batchSize s + batchSize s) <> []).
Proof.
  intros Hb Hi. rewrite slice_js_window by nia. rewrite firstn_skipn_nonempty.
  unfold advanceToNextBatch, more_batches.
  assert (E : (0 <? batchSize s) = true) by (apply Z.ltb_lt; exact Hb).
  rewrite E.
  set (b := batchSize s) in *. set (i := currentBatchIndex s) in *.
  set (n := Z.of_nat (length (selectedCandidates s))).
  pose proof (Z.mod_pos_bound (n + b - 1) b Hb) as Hr.
  pose proof (Z.div_mod (n + b - 1) b ltac:(lia)) as Hd.
  set (q := (n + b - 1) / b) in *. set (r := (n + b - 1) mod b) in *.
  assert (Hiff : i < q - 1 <-> (i + 1) * b < n) by (split; intros; nia).
  destruct (i <? q - 1) eqn:Ec; cbn [fst].
  - apply Z.ltb_lt, Hiff in Ec. split; [intros _|reflexivity].
    split; [lia|]. apply Nat2Z.inj_lt. rewrite Z2Nat.id by nia. exact Ec.
  - apply Z.ltb_ge in Ec. split; [discriminate|]. intros [_ Hk].
    exfalso. apply Nat2Z.inj_lt in Hk. rewrite Z2Nat.id in Hk by nia.
    fold n in Hk. apply Hiff in Hk. lia.
Qed.

Lemma advanceToNextBatch_next_window_witness :
  let s := {| session_id := 0; selectedCandidates := [O; 1%nat; 2%nat];
              selectedIds := ["a"; "b"; "c"]%string; batchSize := 2;
              currentBatchIndex := 0; currentBatchCandidates := [];
              scores := []; undecided := []; startedAt := 0; completedAt := None;
              grid := initGrid; config := DEFAULT_SESSION_OPTIONS |} in
  0 < batchSize s /\ 0 <= currentBatchIndex s /\
  (fst (fst (advanceToNextBatch (mkWorld [] None) s 7)) = true <->
   slice_js (selectedCandidates s) ((currentBatchIndex s + 1) * batchSize s)
     ((currentBatchIndex s + 1) * batchSize s + batchSize s) <> []).
Proof.
  intros s. assert (Hb : 0 < batchSize s) by (simpl; lia).
  assert (Hi : 0 <= currentBatchIndex s) by (simpl; lia).
  split; [exact Hb|]. split; [exact Hi|].
  exact (advanceToNextBatch_next_window (mkWorld [] None) s 7 Hb Hi).
Defined.

Lemma map_set_length_new {V} (k : string) (v : V) (m : list (string * V)) :
  map_has String.eqb k m = false -> length (map_set String.eqb k v m) = S (length m).
Proof.
  intros H. unfold map_set. rewrite H, length_app. simpl. lia.
Qed.

Lemma set_add_length (k : string) (u : list string) :
  length (set_add k u) = (length u + if set_has k u then 0 else 1)%nat.
Proof.
  unfold set_add. destruct (set_has k u); [lia|]. rewrite length_app. reflexivity.
Qed.

(** X5: A successful [scoreCandidate] raises [scored] by one and lowers
    [remaining] by one, and reports completion exactly when [remaining]
    reaches zero or below; a refused one changes nothing.  [skipCandidate]
    lowers [remaining] by one unless the id was already skipped. *)
Theorem score_skip_progress (w : World) (s : Session) (id : string) (v : jval) (now : Z) :
  (let '(r, s', _) := scoreCandidate w s id v now in
   let p := getProgress (Some s) in
   let p' := getProgress (Some s') in
   match r with
   | ScoreOk b =>
       scored p' = scored p + 1 /\ skipped p' = skipped p /\
       remaining p' = remaining p - 1 /\ total p' = total p /\
       (b = true <-> remaining p' <= 0)
   | ScoreFail _ => p' = p
   end) /\
  (let '(r, s', _) := skipCandidate w s id now in
   let p := getProgress (Some s) in
   let p' := getProgress (Some s') in
   let d := if set_has id (undecided s) then 0 else 1 in
   r = ScoreOk (Nat.leb (length (selectedCandidates s))
                  (length (scores s) + length (undecided s) + Z.to_nat d)) /\
   scored p' = scored p /\ skipped p' = skipped p + d /\
   remaining p' = remaining p - d /\ total p' = total p).
Proof.
  split.
  - unfold scoreCandidate. destruct (map_has String.eqb id (scores s)) eqn:Eh;
      [reflexivity|].
    unfold save_and_check.
    pose proof (map_set_length_new id (mkScoreEntry v now (currentBatchIndex s + 1) false)
                  (scores s) Eh) as Hl.
    destruct (evaluation_complete (with_scores s _)) eqn:Ec;
      unfold evaluation_complete in Ec; cbn -[map_set] in *; rewrite Hl in *;
      rewrite ?Nat.leb_le, ?Nat.leb_gt in Ec.
    all: repeat split; intros; first [reflexivity | discriminate | lia].
  - unfold skipCandidate, save_and_check.
    destruct (evaluation_complete _) eqn:Ec; cbn -[set_add];
      unfold evaluation_complete in Ec; cbn -[set_add] in Ec;
      rewrite set_add_length in *; destruct (set_has id (undecided s)); cbn in *.
    all: split; [f_equal; symmetry;
                 first [apply Nat.leb_le | apply Nat.leb_gt];
                 first [apply Nat.leb_le in Ec | apply Nat.leb_gt in Ec]; lia
                |repeat split; lia].
Qed.

(** ** Storage queries *)

(** X6: [getSavedSessionInfo] answers exactly when [hasResumableSession] holds,
    and when it does not, [loadSession] returns null and touches nothing. *)
Theorem resumable_queries (w : World) (all : list loc) :
  (getSavedSessionInfo w <> None <-> hasResumableSession w = true) /\
  (hasResumableSession w = false -> loadSession w all = (None, w)).
Proof.
  unfold getSavedSessionInfo, hasResumableSession, loadSession, completed_flag.
  destruct (w_store w) as [data|].
  - destruct (p_completedAt data) as [t|]; [destruct (t =? 0)|]; cbn;
      (split; [split; [intros H; try reflexivity; congruence
                      |intros H; try discriminate] | intros H; try discriminate]);
      try reflexivity; try discriminate.
  - split; [split; intros H; [congruence | discriminate] | reflexivity].
Qed.

Lemma save_and_check_complete (w : World) (s s' : Session) (now : Z) (w' : World) :
  save_and_check w s now = (ScoreOk true, s', w') ->
  completedAt s' = Some now /\ w_store w' = Some (serialize (w_heap w) s' now).
Proof.
  unfold save_and_check. destruct (evaluation_complete s); [|discriminate].
  intros H. injection H as <- <-. split; reflexivity.
Qed.

(** X8: Once a score or a skip completes the evaluation (at a time other than
    0), the stored session is no longer resumable: [hasResumableSession] is
    false, [getSavedSessionInfo] is null and [loadSession] returns null. *)
Theorem completion_ends_resumable (w : World) (s : Session) (id : string) (v : jval)
    (now : Z) (s' : Session) (w' : World) (all : list loc) :
  now <> 0 ->
  (scoreCandidate w s id v now = (ScoreOk true, s', w') \/
   skipCandidate w s id now = (ScoreOk true, s', w')) ->
  hasResumableSession w' = false /\ getSavedSessionInfo w' = None /\
  loadSession w' all = (None, w').
Proof.
  intros Hn H.
  assert (Hs : exists s1, save_and_check w s1 now = (ScoreOk true, s', w')).
  { destruct H as [H|H].
    - unfold scoreCandidate in H. destruct (map_has String.eqb id (scores s));
        [discriminate|]. eexists. exact H.
    - eexists. exact H. }
  destruct Hs as [s1 Hs]. apply save_and_check_complete in Hs as [Hc Hw].
  assert (Hf : completed_flag (p_completedAt (serialize (w_heap w) s' now)) = true).
  { cbn. rewrite Hc. cbn. apply negb_true_iff, Z.eqb_neq. exact Hn. }
  unfold hasResumableSession, getSavedSessionInfo, loadSession. rewrite Hw, Hf.
  unfold completed_flag in Hf. destruct (p_completedAt _) as [t|]; [|discriminate].
  rewrite Hf. split; [|split]; reflexivity.
Qed.

Lemma completion_ends_resumable_witness :
  let s := {| session_id := 0; selectedCandidates := [O];
              selectedIds := ["a"]%string; batchSize := 9;
              currentBatchIndex := 0; currentBatchCandidates := [];
              scores := []; undecided := []; startedAt := 0; completedAt := None;
              grid := initGrid; config := DEFAULT_SESSION_OPTIONS |} in
  match scoreCandidate (mkWorld [plain_candidate "a"] None) s "a" (JNum 2) 5 with
  | (ScoreOk true, s', w') =>
      hasResumableSession w' = false /\ getSavedSessionInfo w' = None /\
      loadSession w' [O] = (None, w')
  | _ => False
  end.
Proof.
  intros s.
  destruct (scoreCandidate (mkWorld [plain_candidate "a"] None) s "a" (JNum 2) 5)
    as [[r s'] w'] eqn:E.
  destruct r as [[|]|e]; try (vm_compute in E; discriminate).
  exact (completion_ends_resumable _ _ _ _ 5 s' w' [O] ltac:(lia) (or_introl E)).
Defined.

(** ** Attribute counts *)

Lemma mass_fold_ids (h : Heap) (wave : Z) (sc : jval) (now : Z) :
  forall (l : list loc) acc,
  snd (fold_left (mass_step h wave sc now) l acc)
  = app (snd acc) (map (fun c => ID_xA (deref h c)) l).
Proof.
  induction l as [|c l IH]; intros [[m n] ids]; simpl.
  - rewrite app_nil_r. reflexivity.
  - rewrite IH. simpl. rewrite <- app_assoc. reflexivity.
Qed.

(** X9: [countByAttribute] over a dataset counts the records that
    [massScoreByAttribute] over the same dataset affects.  Without a
    dataset it counts 0, while [massScoreByAttribute] then falls back to the
    selected candidates. *)
Theorem countByAttribute_mass (w : World) (s : Session) (ty : string) (v sc : jval)
    (nodes : list loc) (now : Z) :
  countByAttribute (w_heap w) ty v (Some nodes)
  = affected (fst (fst (massScoreByAttribute w s ty v sc (Some nodes) now))) /\
  countByAttribute (w_heap w) ty v None = O /\
  affected (fst (fst (massScoreByAttribute w s ty v sc None now)))
  = length (filter (fun c => attr_matches ty v (deref (w_heap w) c))
              (selectedCandidates s)).
Proof.
  assert (G : forall l, affected (fst (fst (massScoreByAttribute w s ty v sc l now)))
     = length (filter (fun c => attr_matches ty v (deref (w_heap w) c))
                 (match l with Some l => l | None => selectedCandidates s end))).
  { intros l. unfold massScoreByAttribute.
    pose proof (mass_fold_ids (w_heap w) (currentBatchIndex s + 1) sc now
                  (filter (fun c => attr_matches ty v (deref (w_heap w) c))
                     (match l with Some l => l | None => selectedCandidates s end))
                  (scores s, O, [])) as Hf.
    destruct (fold_left _ _ _) as [[m n] ids]. cbn in Hf. subst ids.
    cbn. rewrite length_map. reflexivity. }
  split; [|split]; [rewrite G; reflexivity | reflexivity | apply G].
Qed.

(** ** Roots of the current batch *)

Lemma map_get_in {V} (k : string) (e : V) (m : list (string * V)) :
  map_get String.eqb k m = Some e -> In (k, e) m.
Proof.
  induction m as [|[k' v'] m IH]; simpl; [discriminate|].
  destruct (String.eqb k' k) eqn:E.
  - intros H. injection H as <-. apply String.eqb_eq in E. subst. left. reflexivity.
  - intros H. right. apply IH, H.
Qed.

Lemma map_has_get {V} (k : string) (m : list (string * V)) :
  map_has String.eqb k m = true -> exists e, map_get String.eqb k m = Some e.
Proof.
  intros H. apply map_get_has in H. destruct (map_get String.eqb k m) as [e|];
    [exists e; reflexivity | congruence].
Qed.

Lemma map_replace_in {V} (k : string) (v : V) (m : list (string * V)) (p : string * V) :
  In p (map_replace String.eqb k v m) -> In p m \/ p = (k, v).
Proof.
  induction m as [|[k' v'] m IH]; simpl; [tauto|].
  destruct (String.eqb k' k) eqn:E; simpl.
  - apply String.eqb_eq in E. subst. intros [H|H]; [right; congruence | left; right; exact H].
  - intros [H|H]; [left; left; exact H | destruct (IH H); [left; right|right]; assumption].
Qed.

Lemma map_replace_last {V} (k : string) (v x : V) (m : list (string * V)) :
  map_has String.eqb k m = false ->
  map_replace String.eqb k v (app m [(k, x)]) = app m [(k, v)].
Proof.
  induction m as [|[k' v'] m IH]; simpl; intros H.
  - rewrite String.eqb_refl. reflexivity.
  - apply orb_false_iff in H as [H1 H2]. simpl in H1. rewrite H1, (IH H2). reflexivity.
Qed.

Definition entry_count (m : list (string * RootEntry)) : nat :=
  list_sum (map (fun p => re_count (snd p)) m).

Lemma entry_count_app (m1 m2 : list (string * RootEntry)) :
  entry_count (app m1 m2) = (entry_count m1 + entry_count m2)%nat.
Proof. unfold entry_count. rewrite map_app, list_sum_app. reflexivity. Qed.

Lemma entry_count_replace (k : string) (e v : RootEntry) (m : list (string * RootEntry)) :
  map_get String.eqb k m = Some e ->
  (entry_count (map_replace String.eqb k v m) + re_count e
   = entry_count m + re_count v)%nat.
Proof.
  unfold entry_count.
  induction m as [|[k' v'] m IH]; simpl; [discriminate|].
  destruct (String.eqb k' k); simpl.
  - intros H. injection H as <-. lia.
  - intros H. specialize (IH H). lia.
Qed.

(** The invariant of [rootMap]: distinct keys, each the key of the entry's
    own [root] and [cls], and positive counts. *)
Definition roots_inv (m : list (string * RootEntry)) : Prop :=
  NoDup (map fst m) /\
  Forall (fun p => fst p = root_key (re_root (snd p)) (re_cls (snd p)) /\
                   (1 <= re_count (snd p))%nat) m.

Lemma roots_step_inv (m : list (string * RootEntry)) (r : jval * jval) :
  roots_inv m ->
  roots_inv (roots_step m r) /\
  entry_count (roots_step m r) = (entry_count m + if js_truthy (fst r) then 1 else 0)%nat.
Proof.
  destruct r as [root cls]. intros [Hn Hf]. unfold roots_step. cbn [fst].
  destruct (js_truthy root); [|split; [split; assumption | lia]].
  set (key := root_key root cls).
  destruct (map_has String.eqb key m) eqn:Eh.
  - destruct (map_has_get _ _ Eh) as [e He]. rewrite He.
    unfold map_set. rewrite Eh.
    pose proof (entry_count_replace key e
                  (mkRootEntry (re_root e) (re_cls e) (S (re_count e))) m He) as Hc.
    cbn [re_count] in Hc.
    pose proof (proj1 (Forall_forall _ m) Hf (key, e) (map_get_in _ _ _ He)) as Hfa.
    cbn [fst snd] in Hfa. destruct Hfa as [Hk _].
    split; [|lia]. split.
    + rewrite map_replace_keys. exact Hn.
    + apply Forall_forall. intros p Hp. apply map_replace_in in Hp as [Hp|Hp]; [|subst p].
      * exact (proj1 (Forall_forall _ m) Hf p Hp).
      * cbn. split; [exact Hk | lia].
  - pose proof (map_get_set_new key (mkRootEntry root cls 0) m Eh) as Hg.
    pose proof (map_has_set key key (mkRootEntry root cls 0) m) as Hh.
    rewrite Eh, String.eqb_refl in Hh. cbn [orb] in Hh.
    rewrite Hg. unfold map_set at 1. rewrite Hh.
    unfold map_set. rewrite Eh. cbn [re_root re_cls re_count].
    rewrite map_replace_last by exact Eh.
    assert (Hh' : map_has String.eqb key (app m [(key, mkRootEntry root cls 0)]) = true)
      by (unfold map_set in Hh; rewrite Eh in Hh; exact Hh).
    rewrite Hh'.
    split; [split|].
    + rewrite map_app. cbn. apply NoDup_app; [exact Hn | repeat constructor; simpl; tauto |].
      intros x Hin [Hx|[]]. subst x.
      rewrite map_has_str_keys in Eh.
      assert (existsb (fun x => String.eqb x key) (map fst m) = true)
        by (apply existsb_exists; exists key; split; [exact Hin | apply String.eqb_refl]).
      congruence.
    + apply Forall_app. split; [exact Hf|]. repeat constructor; cbn; lia.
    + rewrite entry_count_app. unfold entry_count at 2. cbn. lia.
Qed.

Lemma roots_fold_inv (rs : list (jval * jval)) (m : list (string * RootEntry)) :
  roots_inv m ->
  roots_inv (fold_left roots_step rs m) /\
  entry_count (fold_left roots_step rs m)
  = (entry_count m + length (filter (fun r => js_truthy (fst r)) rs))%nat.
Proof.
  revert m. induction rs as [|r rs IH]; intros m Hm; simpl; [split; [exact Hm | lia]|].
  destruct (roots_step_inv m r Hm) as [Hi Hc].
  destruct (IH _ Hi) as [Hi' Hc']. split; [exact Hi'|].
  rewrite Hc', Hc. destruct (js_truthy (fst r)); simpl; lia.
Qed.

Lemma roots_map_flat (h : Heap) (batch : list loc) :
  roots_map h batch = fold_left roots_step (flat_map (fun c => root_pairs (deref h c)) batch) [].
Proof.
  unfold roots_map.
  enough (forall m, fold_left (fun m c => fold_left roots_step (root_pairs (deref h c)) m) batch m
                    = fold_left roots_step (flat_map (fun c => root_pairs (deref h c)) batch) m)
    by apply H.
  induction batch as [|c batch IH]; intros m; cbn [fold_left flat_map]; [reflexivity|].
  rewrite IH, fold_left_app. reflexivity.
Qed.

(** X10: getCurrentBatchRoots: the counts of the returned entries add up to the
    number of truthy root slots (Root1..Root3) over the current batch's
    candidates; every entry has a count of at least 1; and no two entries
    share the same root|class key. *)
Theorem getCurrentBatchRoots_tally (h : Heap) (s : Session) :
  list_sum (map re_count (getCurrentBatchRoots h s))
  = length (filter (fun r => js_truthy (fst r))
              (flat_map (fun c => root_pairs (deref h c)) (currentBatchCandidates s))) /\
  Forall (fun e => 1 <= re_count e)%nat (getCurrentBatchRoots h s) /\
  NoDup (map (fun e => root_key (re_root e) (re_cls e)) (getCurrentBatchRoots h s)).
Proof.
  unfold getCurrentBatchRoots. rewrite roots_map_flat.
  destruct (roots_fold_inv (flat_map (fun c => root_pairs (deref h c)) (currentBatchCandidates s)) []
              (conj (NoDup_nil _) (Forall_nil _))) as [[Hn Hf] Hc].
  set (m := fold_left roots_step _ []) in *.
  split; [|split].
  - rewrite map_map. exact Hc.
  - apply Forall_map. eapply Forall_impl; [|exact Hf]. intros p [_ Hp]. exact Hp.
  - rewrite map_map. erewrite map_ext_in; [exact Hn|].
    intros p Hp. symmetry. exact (proj1 (proj1 (Forall_forall _ m) Hf p Hp)).
Qed.

(** ** Placing a batch on the grid *)

Lemma in_remove_nth {A} (d : A) (l : list A) (idx : nat) (y : A) :
  NoDup l -> (idx < length l)%nat ->
  (In y (remove_nth idx l) <-> In y l /\ y <> nth idx l d).
Proof.
  intros Hn Hi. pose proof (perm_remove_nth d l idx Hi) as Hp.
  pose proof (Permutation_NoDup Hp Hn) as Hn'. apply NoDup_cons_iff in Hn' as [Hnot _].
  split.
  - intros Hy. split.
    + apply (Permutation_in _ (Permutation_sym Hp)). right. exact Hy.
    + intros ->. exact (Hnot Hy).
  - intros [Hy Hne]. apply (Permutation_in _ Hp) in Hy as [Hy|Hy]; [congruence | exact Hy].
Qed.

Lemma nodup_remove_nth {A} (d : A) (l : list A) (idx : nat) :
  NoDup l -> (idx < length l)%nat -> NoDup (remove_nth idx l).
Proof.
  intros Hn Hi. pose proof (Permutation_NoDup (perm_remove_nth d l idx Hi) Hn) as H.
  apply NoDup_cons_iff in H. exact (proj2 H).
Qed.

Lemma length_remove_nth {A} (l : list A) (idx : nat) :
  (idx < length l)%nat -> length (remove_nth idx l) = pred (length l).
Proof.
  intros Hi. unfold remove_nth. rewrite length_app, length_firstn, length_skipn. lia.
Qed.

Lemma assign_cases (cid : string) (idx : nat) (g : Grid) :
  let '(cell, g1) := assignGridCell cid idx g in
  (cell = None /\ g1 = g /\ (length (availableCells g) <= idx)%nat) \/
  ((idx < length (availableCells g))%nat /\
   cell = Some (nth idx (availableCells g) (0, 0)) /\
   availableCells g1 = remove_nth idx (availableCells g)).
Proof.
  unfold assignGridCell. destruct (availableCells g) as [|a l] eqn:E.
  - left. split; [reflexivity | split; [reflexivity | simpl; lia]].
  - destruct (Nat.ltb idx (length (a :: l))) eqn:Ei.
    + right. apply Nat.ltb_lt in Ei. split; [exact Ei | split; reflexivity].
    + left. apply Nat.ltb_ge in Ei. split; [reflexivity | split; [reflexivity | exact Ei]].
Qed.

Lemma deref_app (h ext : Heap) (l : loc) :
  (l < length h)%nat -> deref (app h ext) l = deref h l.
Proof. intros Hl. unfold deref. apply app_nth1, Hl. Qed.

Lemma place_batch_spec (h : Heap) (g : Grid) (cs : list loc) (draws : list nat) :
  Forall (fun c => (c < length h)%nat) cs ->
  NoDup (availableCells g) ->
  let '(h', g', ls) := place_batch h g cs draws in
  exists cl : list (option Coord),
    length cl = length cs /\
    h' = app h (map (fun p => copy_at (deref h (fst p)) (snd p)) (combine cs cl)) /\
    ls = seq (length h) (length cs) /\
    NoDup (somes cl) /\
    incl (somes cl) (availableCells g) /\
    NoDup (availableCells g') /\
    (forall x, In x (availableCells g') <-> In x (availableCells g) /\ ~ In x (somes cl)) /\
    ((forall i, (i < length cs)%nat -> (nth i draws O < length (availableCells g) - i)%nat) ->
     Forall (fun o => o <> None) cl).
Proof.
  revert h g draws. induction cs as [|c rest IH]; intros h g draws Hv Hn; cbn [place_batch].
  - exists []. rewrite app_nil_r. repeat split; try constructor; try tauto.
    intros x Hx. destruct Hx.
  - apply Forall_cons_iff in Hv as [Hc Hv].
    pose proof (assign_cases (ID_xA (deref h c)) (hd O draws) g) as Hcase.
    destruct (assignGridCell (ID_xA (deref h c)) (hd O draws) g) as [cell g1] eqn:Ea.
    set (copy := match cell with Some (r, k) => with_grid_pos (deref h c) (Some r) (Some k)
                                 | None => deref h c end).
    cbn [alloc].
    set (h1 := app h [copy]).
    assert (Hlen1 : length h1 = S (length h)) by (unfold h1; rewrite length_app; simpl; lia).
    assert (Hv1 : Forall (fun c => (c < length h1)%nat) rest)
      by (apply Forall_forall; intros x Hx; pose proof (proj1 (Forall_forall _ rest) Hv x Hx); cbv beta in *; lia).
    assert (Hn1 : NoDup (availableCells g1)).
    { destruct Hcase as [[_ [-> _]] | [Hi [_ ->]]]; [exact Hn | apply (nodup_remove_nth (0, 0)); assumption]. }
    specialize (IH h1 g1 (tl draws) Hv1 Hn1).
    destruct (place_batch h1 g1 rest (tl draws)) as [[h' g'] ls] eqn:Ep.
    destruct IH as [cl [Hl [Hh [Hls [Hnd [Hinc [Hn' [Hav Hdraw]]]]]]]].
    exists (cell :: cl).
    assert (Hmap : map (fun p => copy_at (deref h1 (fst p)) (snd p)) (combine rest cl)
                   = map (fun p => copy_at (deref h (fst p)) (snd p)) (combine rest cl)).
    { apply map_ext_in. intros [x o] Hx. apply in_combine_l in Hx. cbn [fst snd].
      unfold h1. rewrite deref_app by (exact (proj1 (Forall_forall _ rest) Hv x Hx)). reflexivity. }
    split; [simpl; lia|]. split.
    { rewrite Hh, Hmap. unfold h1. rewrite <- app_assoc. cbn [combine map app fst snd].
      unfold copy, copy_at. reflexivity. }
    split.
    { rewrite Hls, Hlen1. reflexivity. }
    destruct Hcase as [[Hcell [Hg Hge]] | [Hi [Hcell Hg1]]].
    + subst cell g1. cbn [somes flat_map app]. fold (somes cl).
      split; [exact Hnd|]. split; [exact Hinc|]. split; [exact Hn'|]. split; [exact Hav|].
      intros Hd. specialize (Hd O ltac:(simpl; lia)). destruct draws; simpl in Hd, Hge; lia.
    + subst cell. cbn [somes flat_map app]. fold (somes cl).
      set (x0 := nth (hd O draws) (availableCells g) (0, 0)) in *.
      assert (Hrm : forall y, In y (availableCells g1) <-> In y (availableCells g) /\ y <> x0)
        by (intros y; rewrite Hg1; apply in_remove_nth; assumption).
      split.
      { constructor; [|exact Hnd]. intros Hin. apply Hinc, Hrm in Hin. tauto. }
      split.
      { intros y [<-|Hy]; [apply nth_In, Hi | apply Hrm, Hinc, Hy]. }
      split; [exact Hn'|]. split.
      { intros y. rewrite Hav, Hrm. simpl. split.
        - intros [[Hy Hne] Hno]. split; [exact Hy|]. intros [Heq|Hin]; [congruence | tauto].
        - intros [Hy Hno]. split; [split; [exact Hy|] | ]; intros Heq; apply Hno; first [left; congruence | right; assumption]. }
      intros Hd. constructor; [discriminate|]. apply Hdraw.
      intros i Hi'. specialize (Hd (S i) ltac:(simpl; lia)).
      rewrite Hg1, length_remove_nth by exact Hi.
      destruct draws; [destruct i|]; simpl in Hd |- *; lia.
Qed.

Lemma set_has_of_list (x : string) (l : list string) :
  set_has x (set_of_list l) = true <-> In x l.
Proof.
  unfold set_of_list.
  enough (forall acc, set_has x (fold_left (fun s y => set_add y s) l acc)
                      = set_has x acc || existsb (String.eqb x) l) as H.
  { rewrite H. cbn. rewrite existsb_exists. split.
    - intros [y [Hy E]]. apply String.eqb_eq in E. subst. exact Hy.
    - intros Hx. exists x. split; [exact Hx | apply String.eqb_refl]. }
  induction l as [|y l IH]; intros acc; cbn [fold_left existsb].
  - rewrite orb_false_r. reflexivity.
  - rewrite IH, set_has_add, orb_assoc. reflexivity.
Qed.

Lemma slice0_incl {A} (l : list A) (e : Z) : incl (slice0 l e) l.
Proof.
  intros x Hx. unfold slice0 in Hx.
  destruct (e <? 0);
    [rewrite <- (firstn_skipn (Z.to_nat (Z.of_nat (length l) + e)) l)
    | rewrite <- (firstn_skipn (Z.to_nat e) l)]; apply in_or_app; left; exact Hx.
Qed.

Lemma filterCandidates_perm (h : Heap) (nodes : list loc) (o : Options) (now : Z) :
  exists ordered, Permutation ordered (eligible h nodes o) /\
    filterCandidates h nodes o now
    = slice0 ordered (Z.min (selectionCount o) (Z.of_nat (length ordered))).
Proof.
  unfold filterCandidates.
  pose proof (applySelectionMethod_frame h [eligible h nodes o] 0
                (selectionMethod o) (randomSeed o) now) as Hf.
  destruct (applySelectionMethod h [eligible h nodes o] 0 (selectionMethod o) (randomSeed o) now)
    as [A' r].
  destruct Hf as [_ [_ [Hp _]]]. exists (arr A' r). split; [exact Hp | reflexivity].
Qed.

Lemma filterCandidates_incl (h : Heap) (nodes : list loc) (o : Options) (now : Z) :
  incl (filterCandidates h nodes o now) (eligible h nodes o).
Proof.
  destruct (filterCandidates_perm h nodes o now) as [ord [Hp ->]].
  intros x Hx. apply slice0_incl in Hx. exact (Permutation_in _ Hp Hx).
Qed.

Lemma filterCandidates_length (h : Heap) (nodes : list loc) (o : Options) (now : Z) :
  0 <= selectionCount o ->
  length (filterCandidates h nodes o now)
  = Nat.min (Z.to_nat (selectionCount o)) (length (eligible h nodes o)).
Proof.
  intros Hc. destruct (filterCandidates_perm h nodes o now) as [ord [Hp ->]].
  rewrite slice0_min by exact Hc. rewrite length_firstn, (Permutation_length Hp). reflexivity.
Qed.

Lemma place_batch_length (h : Heap) (g : Grid) (cs : list loc) (draws : list nat) :
  length (snd (place_batch h g cs draws)) = length cs.
Proof.
  revert h g draws. induction cs as [|c rest IH]; intros h g draws; [reflexivity|].
  cbn [place_batch]. destruct (assignGridCell _ _ _) as [cell g1]. cbn [alloc].
  specialize (IH (app h [match cell with Some (r, k) => with_grid_pos (deref h c) (Some r) (Some k)
                                      | None => deref h c end]) g1 (tl draws)).
  destruct (place_batch _ _ rest _) as [[h' g'] ls]. cbn in IH |- *. rewrite IH. reflexivity.
Qed.

Lemma eligible_filter_options (h : Heap) (nodes : list loc) (f : GridFilters)
    (n n' : Z) (m m' : string) (sd sd' : option Z) :
  eligible h nodes (filter_options f n m sd) = eligible h nodes (filter_options f n' m' sd').
Proof. reflexivity. Qed.

Lemma eligible_incl (h : Heap) (nodes : list loc) (o : Options) :
  incl (eligible h nodes o) nodes.
Proof.
  intros c Hc. unfold eligible, applyAIScoreThreshold, applyRankFilter, applyGroupFilter in Hc.
  repeat match type of Hc with
         | In _ (filter _ _) => apply filter_In in Hc as [Hc _]
         | In _ (match ?x with _ => _ end) => destruct x
         | In _ (if ?b then _ else _) => destruct b
         end; exact Hc.
Qed.

Lemma filtered_batch_spec (h : Heap) (nodes : list loc) (f : GridFilters)
    (ids : list string) (grid : Grid) (bs : option Z) (draws : list nat) (now : Z) :
  Forall (fun c => (c < length h)%nat) nodes ->
  NoDup (availableCells grid) ->
  let '(h', g', ls) := getFilteredBatch h nodes f ids grid bs draws now in
  exists (cs : list loc) (cl : list (option Coord)),
    cs = slice0 (filter (fun c => negb (set_has (ID_xA (deref h c)) (set_of_list ids)))
                   (filterCandidates h nodes
                      (filter_options f 9999 (or_default (f_selectionMethod f) "top-ai") (Some now))
                      now))
                (match bs with None | Some 0 => 6 | Some b => b end) /\
    incl cs (eligible h nodes (filter_options f (selectionCount DEFAULT_SESSION_OPTIONS)
                                 (selectionMethod DEFAULT_SESSION_OPTIONS) None)) /\
    Forall (fun c => ~ In (ID_xA (deref h c)) ids) cs /\
    length cl = length cs /\
    h' = app h (map (fun p => copy_at (deref h (fst p)) (snd p)) (combine cs cl)) /\
    ls = seq (length h) (length cs) /\
    NoDup (somes cl) /\
    incl (somes cl) (availableCells grid) /\
    NoDup (availableCells g') /\
    (forall x, In x (availableCells g') <-> In x (availableCells grid) /\ ~ In x (somes cl)) /\
    ((forall i, (i < length cs)%nat -> (nth i draws O < length (availableCells grid) - i)%nat) ->
     Forall (fun o => o <> None) cl).
Proof.
  intros Hv Hn. unfold getFilteredBatch.
  set (opts := filter_options f 9999 (or_default (f_selectionMethod f) "top-ai") (Some now)).
  set (cs := slice0 (filter (fun c => negb (set_has (ID_xA (deref h c)) (set_of_list ids)))
                       (filterCandidates h nodes opts now))
                    (match bs with None | Some 0 => 6 | Some b => b end)).
  assert (Hinc : incl cs (eligible h nodes opts)).
  { intros c Hc. apply slice0_incl, filter_In in Hc as [Hc _].
    exact (filterCandidates_incl _ _ _ _ _ Hc). }
  assert (Hcs : Forall (fun c => (c < length h)%nat) cs).
  { apply Forall_forall. intros c Hc. apply Hinc in Hc. unfold eligible in Hc.
    apply eligible_incl in Hc. exact (proj1 (Forall_forall _ nodes) Hv c Hc). }
  pose proof (place_batch_spec h grid cs draws Hcs Hn) as Hp.
  destruct (place_batch h grid cs draws) as [[h' g'] ls].
  destruct Hp as [cl Hp]. exists cs, cl. split; [reflexivity|]. split; [exact Hinc|]. split; [|exact Hp].
  apply Forall_forall. intros c Hc Hin.
  apply slice0_incl, filter_In in Hc as [_ Hc].
  apply (set_has_of_list _ ids) in Hin. rewrite Hin in Hc. discriminate.
Qed.

Lemma Forall2_seq {B} (R : nat -> B -> Prop) (n : nat) (ys : list B) (d : B) :
  (forall i, (i < length ys)%nat -> R (n + i)%nat (nth i ys d)) ->
  Forall2 R (seq n (length ys)) ys.
Proof.
  revert n. induction ys as [|y ys IH]; intros n H; constructor.
  - specialize (H O ltac:(simpl; lia)). rewrite Nat.add_0_r in H. exact H.
  - apply IH. intros i Hi. specialize (H (S i) ltac:(simpl; lia)).
    replace (S n + i)%nat with (n + S i)%nat by lia. exact H.
Qed.

Lemma placed_copies (h : Heap) (cs : list loc) (cl : list (option Coord)) :
  length cl = length cs ->
  Forall2 (fun l cell => exists c, In c cs /\
             deref (app h (map (fun p => copy_at (deref h (fst p)) (snd p)) (combine cs cl))) l
             = copy_at (deref h c) cell)
    (seq (length h) (length cs)) cl.
Proof.
  intros Hl. rewrite <- Hl. apply (Forall2_seq _ _ _ None). intros i Hi.
  exists (nth i cs O). split; [apply nth_In; lia|].
  unfold deref at 1. rewrite app_nth2 by lia. replace (length h + i - length h)%nat with i by lia.
  rewrite (nth_indep _ _ (copy_at (deref h (fst (O, @None Coord))) (snd (O, @None Coord))))
    by (rewrite length_map, length_combine; lia).
  rewrite (map_nth (fun p => copy_at (deref h (fst p)) (snd p))).
  rewrite combine_nth by exact (eq_sym Hl). reflexivity.
Qed.

Lemma somes_all {A} (l : list (option A)) :
  Forall (fun o => o <> None) l -> l = map Some (somes l).
Proof.
  induction l as [|[x|] l IH]; intros H; [reflexivity| |].
  - inversion H; subst. cbn. f_equal. apply IH. assumption.
  - inversion H; subst. congruence.
Qed.

Lemma Forall2_map_r {A B C} (R : A -> C -> Prop) (g : B -> C) (xs : list A) (ys : list B) :
  Forall2 R xs (map g ys) -> Forall2 (fun x y => R x (g y)) xs ys.
Proof.
  revert xs. induction ys as [|y ys IH]; intros xs H; inversion H; subst; constructor;
    [assumption | apply IH; assumption].
Qed.

(** X11: getFilteredBatch: the caller's heap records are left as they are and the
    batch consists of freshly allocated records; each is a copy of a node that
    passes the filters [countEligible] counts and whose id is not among
    [currentBatchIds], carrying the grid cell it was given if any.  The cells
    given are pairwise distinct, and exactly they leave the grid's free cells. *)
Theorem getFilteredBatch_fresh_copies (h : Heap) (nodes : list loc) (f : GridFilters)
    (ids : list string) (grid : Grid) (bs : option Z) (draws : list nat) (now : Z) :
  Forall (fun c => (c < length h)%nat) nodes ->
  NoDup (availableCells grid) ->
  let '(h', g', ls) := getFilteredBatch h nodes f ids grid bs draws now in
  firstn (length h) h' = h /\
  ls = seq (length h) (length ls) /\
  exists cl : list (option Coord),
    Forall2 (fun l cell => exists c,
               In c (eligible h nodes (filter_options f (selectionCount DEFAULT_SESSION_OPTIONS)
                                         (selectionMethod DEFAULT_SESSION_OPTIONS) None)) /\
               ~ In (ID_xA (deref h c)) ids /\
               deref h' l = copy_at (deref h c) cell) ls cl /\
    NoDup (somes cl) /\
    (forall x, In x (availableCells g') <-> In x (availableCells grid) /\ ~ In x (somes cl)).
Proof.
  intros Hv Hn. pose proof (filtered_batch_spec h nodes f ids grid bs draws now Hv Hn) as Hs.
  destruct (getFilteredBatch h nodes f ids grid bs draws now) as [[h' g'] ls].
  destruct Hs as [cs [cl [_ [Hinc [Hids [Hl [Hh [Hls [Hnd [_ [_ [Hav _]]]]]]]]]]]].
  split; [rewrite Hh, firstn_app, Nat.sub_diag, firstn_all; simpl; apply app_nil_r|].
  split; [rewrite Hls, length_seq; reflexivity|].
  exists cl. split; [|split; [exact Hnd | exact Hav]].
  pose proof (placed_copies h cs cl Hl) as Hpc. rewrite <- Hh, <- Hls in Hpc.
  eapply Forall2_impl; [|exact Hpc]. intros l cell [c [Hc Hd]]. exists c.
  split; [exact (Hinc c Hc)|]. split; [exact (proj1 (Forall_forall _ cs) Hids c Hc) | exact Hd].
Qed.

(** X12: The grid waves of app.js: on a fresh [createGrid()] with no exclusions
    and a wave size of 6, when each random draw is within the free cells left,
    every record of the wave gets a cell; the cells are pairwise distinct cells
    of the 3x3 grid, the wave has at most 6 records, and the grid's free cells
    are the others. *)
Theorem getFilteredBatch_wave_cells (h : Heap) (nodes : list loc) (f : GridFilters)
    (draws : list nat) (now : Z) :
  Forall (fun c => (c < length h)%nat) nodes ->
  (forall i, (i < 6)%nat -> (nth i draws O < 9 - i)%nat) ->
  let '(h', g', ls) := getFilteredBatch h nodes f [] createGrid (Some 6) draws now in
  (length ls <= 6)%nat /\
  exists cells : list Coord,
    NoDup cells /\ incl cells (all_coords 3 3) /\
    Forall2 (fun l x => exists c, In c nodes /\
               deref h' l = with_grid_pos (deref h c) (Some (fst x)) (Some (snd x))) ls cells /\
    (forall x, In x (availableCells g') <-> In x (all_coords 3 3) /\ ~ In x cells).
Proof.
  intros Hv Hd.
  assert (Ha : availableCells createGrid = all_coords 3 3) by reflexivity.
  assert (Hn : NoDup (availableCells createGrid)) by (rewrite Ha; apply all_coords_nodup).
  pose proof (filtered_batch_spec h nodes f [] createGrid (Some 6) draws now Hv Hn) as Hs.
  destruct (getFilteredBatch h nodes f [] createGrid (Some 6) draws now) as [[h' g'] ls].
  destruct Hs as [cs [cl [Hcs [Hinc [_ [Hl [Hh [Hls [Hnd [Hincl [_ [Hav Hall]]]]]]]]]]]].
  assert (Hcs6 : (length cs <= 6)%nat)
    by (rewrite Hcs; unfold slice0; cbn; rewrite length_firstn; lia).
  assert (Hsome : Forall (fun o => o <> None) cl).
  { apply Hall. intros i Hi. rewrite Ha. specialize (Hd i ltac:(lia)).
    replace (length (all_coords 3 3)) with 9%nat by reflexivity. exact Hd. }
  split; [rewrite Hls, length_seq; exact Hcs6|].
  exists (somes cl). split; [exact Hnd|]. split; [rewrite <- Ha; exact Hincl|].
  split; [|intros x; rewrite Hav, Ha; reflexivity].
  pose proof (placed_copies h cs cl Hl) as Hpc. rewrite <- Hh, <- Hls in Hpc.
  rewrite (somes_all cl Hsome) in Hpc. apply Forall2_map_r in Hpc.
  eapply Forall2_impl; [|exact Hpc]. intros l [r k] [c [Hc Hdr]]. exists c.
  split; [exact (eligible_incl _ _ _ c (Hinc c Hc)) | exact Hdr].
Qed.

Lemma getFilteredBatch_fresh_copies_witness :
  Forall (fun c => (c < length (w_heap demo_world))%nat) [O; 1%nat] /\
  NoDup (availableCells createGrid) /\
  let '(h', g', ls) := getFilteredBatch (w_heap demo_world) [O; 1%nat] no_filters ["b"]%string
                         createGrid None [4%nat; 0%nat] 1000 in
  firstn (length (w_heap demo_world)) h' = w_heap demo_world /\
  ls = seq (length (w_heap demo_world)) (length ls) /\
  exists cl : list (option Coord),
    Forall2 (fun l cell => exists c,
               In c (eligible (w_heap demo_world) [O; 1%nat]
                       (filter_options no_filters (selectionCount DEFAULT_SESSION_OPTIONS)
                          (selectionMethod DEFAULT_SESSION_OPTIONS) None)) /\
               ~ In (ID_xA (deref (w_heap demo_world) c)) ["b"]%string /\
               deref h' l = copy_at (deref (w_heap demo_world) c) cell) ls cl /\
    NoDup (somes cl) /\
    (forall x, In x (availableCells g') <-> In x (availableCells createGrid) /\ ~ In x (somes cl)).
Proof.
  assert (Hv : Forall (fun c => (c < length (w_heap demo_world))%nat) [O; 1%nat])
    by (repeat constructor; simpl; lia).
  assert (Hn : NoDup (availableCells createGrid)) by apply all_coords_nodup.
  split; [exact Hv|]. split; [exact Hn|].
  exact (getFilteredBatch_fresh_copies (w_heap demo_world) [O; 1%nat] no_filters ["b"]%string
           createGrid None [4%nat; 0%nat] 1000 Hv Hn).
Defined.

Lemma getFilteredBatch_wave_cells_witness :
  Forall (fun c => (c < length (w_heap demo_world))%nat) [O; 1%nat] /\
  (forall i, (i < 6)%nat -> (nth i [8%nat; 0%nat] O < 9 - i)%nat) /\
  let '(h', g', ls) := getFilteredBatch (w_heap demo_world) [O; 1%nat] no_filters []
                         createGrid (Some 6) [8%nat; 0%nat] 1000 in
  (length ls <= 6)%nat /\
  exists cells : list Coord,
    NoDup cells /\ incl cells (all_coords 3 3) /\
    Forall2 (fun l x => exists c, In c [O; 1%nat] /\
               deref h' l = with_grid_pos (deref (w_heap demo_world) c)
                              (Some (fst x)) (Some (snd x))) ls cells /\
    (forall x, In x (availableCells g') <-> In x (all_coords 3 3) /\ ~ In x cells).
Proof.
  assert (Hv : Forall (fun c => (c < length (w_heap demo_world))%nat) [O; 1%nat])
    by (repeat constructor; simpl; lia).
  assert (Hd : forall i, (i < 6)%nat -> (nth i [8%nat; 0%nat] O < 9 - i)%nat)
    by (intros i Hi; do 6 (destruct i as [|i]; [simpl; lia|]); lia).
  split; [exact Hv|]. split; [exact Hd|].
  exact (getFilteredBatch_wave_cells (w_heap demo_world) [O; 1%nat] no_filters
           [8%nat; 0%nat] 1000 Hv Hd).
Defined.

Lemma filter_set_empty (h : Heap) (l : list loc) :
  filter (fun c => negb (set_has (ID_xA (deref h c)) (set_of_list []))) l = l.
Proof.
  change (filter (fun _ => true) l = l).
  induction l as [|c l IH]; simpl; [reflexivity | rewrite IH; reflexivity].
Qed.

(** X13: getFilteredBatch without exclusions returns as many records as the batch
    size ([6] when it is missing or [0]), the 9999 cap and the number
    [countEligible] reports allow, whichever is least. *)
Theorem getFilteredBatch_length (h : Heap) (nodes : list loc) (f : GridFilters)
    (grid : Grid) (bs : option Z) (draws : list nat) (now : Z) :
  (forall b, bs = Some b -> 0 <= b) ->
  length (snd (getFilteredBatch h nodes f [] grid bs draws now))
  = Nat.min (Z.to_nat (match bs with None | Some 0 => 6 | Some b => b end))
            (Nat.min (Z.to_nat 9999) (countEligible h nodes f)).
Proof.
  intros Hb. unfold getFilteredBatch. rewrite place_batch_length, filter_set_empty.
  assert (Hnn : 0 <= match bs with None | Some 0 => 6 | Some b => b end)
    by (destruct bs as [[|p|p]|]; try lia; specialize (Hb _ eq_refl); lia).
  unfold slice0. destruct (_ <? 0) eqn:E; [apply Z.ltb_lt in E; lia|].
  rewrite length_firstn, filterCandidates_length by (simpl; lia).
  reflexivity.
Qed.

Lemma getFilteredBatch_length_witness :
  (forall b, Some 1 = Some b -> 0 <= b) /\
  length (snd (getFilteredBatch (w_heap demo_world) [O; 1%nat] no_filters [] createGrid
                 (Some 1) [] 1000))
  = Nat.min (Z.to_nat 1) (Nat.min (Z.to_nat 9999) (countEligible (w_heap demo_world) [O; 1%nat] no_filters)).
Proof.
  assert (Hb : forall b, Some 1 = Some b -> 0 <= b) by (intros b E; injection E as <-; lia).
  split; [exact Hb|].
  exact (getFilteredBatch_length (w_heap demo_world) [O; 1%nat] no_filters createGrid
           (Some 1) [] 1000 Hb).
Defined.

(** ** The launcher's preview count *)

(** X14: The eligible count [EvaluationLauncher] shows ignores the AI score range
    the user picks: [countEligible] reads [aiScoreRange], while the launcher
    passes [aiScoreThreshold].  For a non-empty rank filter the preview is the
    number of candidates that a session started from the launcher with the
    range 0 to 100 (and the same rank filter and groups) would filter down
    to, whatever [aiScoreMin] and [aiScoreMax] are. *)
Theorem launcher_count_ignores_range (h : Heap) (all : list loc) (rf method : string)
    (mn mx : Z) (gs : list jval) :
  rf <> ""%string ->
  launcher_count h all rf mn mx gs
  = length (eligible h all (merge_options (launcher_start_options method rf 0 100 gs))).
Proof.
  intros Hrf. apply String.eqb_neq in Hrf.
  unfold launcher_count, countEligible, countEligibleCandidates, eligible.
  cbn [filter_options merge_options launcher_start_options rankFilter groupFilter
       aiScoreThreshold u_rankFilter u_groupFilter u_aiScoreThreshold override or_default
       filter_groups filter_threshold f_rankFilter f_groupFilter f_aiScoreRange].
  rewrite Hrf. destruct gs; reflexivity.
Qed.

Lemma launcher_count_ignores_range_witness :
  "ranked"%string <> ""%string /\
  launcher_count (w_heap demo_world) [O; 1%nat] "ranked" 40 60 []
  = length (eligible (w_heap demo_world) [O; 1%nat]
              (merge_options (launcher_start_options "top-ai" "ranked" 0 100 []))).
Proof.
  assert (H : "ranked"%string <> ""%string) by discriminate.
  split; [exact H|].
  exact (launcher_count_ignores_range (w_heap demo_world) [O; 1%nat] "ranked" "top-ai" 40 60 [] H).
Defined.

(** ** Replacing a candidate on the grid *)






(** ** Removing a candidate from the batch *)

Lemma release_frees (full : list Coord) (g : Grid) (r k : Z) :
  NoDup full -> grid_partition full g -> In (r, k) full ->
  ~ In (r, k) (map fst (cells (releaseGridCell r k g))) /\
  In (r, k) (availableCells (releaseGridCell r k g)).
Proof.
  intros Hfull Hp Hin. unfold releaseGridCell.
  destruct (map_has coord_eqb (r, k) (cells g)) eqn:E; cbn [cells availableCells].
  - split.
    + rewrite map_delete_keys. intros Hx. apply filter_In in Hx as [_ Hx].
      rewrite (proj2 (coord_eqb_eq (r, k) (r, k)) eq_refl) in Hx. discriminate.
    + apply in_or_app. right. left. reflexivity.
  - split.
    + intros Hx. apply map_has_coord in Hx. congruence.
    + unfold grid_partition in Hp. apply (Permutation_in _ (Permutation_sym Hp)) in Hin.
      apply in_app_or in Hin as [Hin|Hin]; [|exact Hin].
      apply map_has_coord in Hin. congruence.
Qed.

(** X16: removeFromBatch: the grid keeps partitioning the coordinate space; the
    returned number is the length of the new batch, which holds exactly the
    former batch entries with another id; and the cell (r, k) of the departing
    candidate, if it lies in the grid, is free afterwards.  Scores, undecided
    ids and the selection are untouched and the heap is not written. *)
Theorem removeFromBatch_frees_cell (w : World) (s : Session) (id : string) (now : Z)
    (full : list Coord) :
  NoDup full -> grid_partition full (grid s) ->
  let '(n, s', w') := removeFromBatch w s id now in
  grid_partition full (grid s') /\
  n = length (currentBatchCandidates s') /\
  (forall c, In c (currentBatchCandidates s') <->
             In c (currentBatchCandidates s) /\ ID_xA (deref (w_heap w) c) <> id) /\
  (forall d r k, find (has_id (w_heap w) id) (currentBatchCandidates s) = Some d ->
     gridRow (deref (w_heap w) d) = Some r -> gridCol (deref (w_heap w) d) = Some k ->
     In (r, k) full ->
     ~ In (r, k) (map fst (cells (grid s'))) /\ In (r, k) (availableCells (grid s'))) /\
  scores s' = scores s /\ undecided s' = undecided s /\
  selectedCandidates s' = selectedCandidates s /\ w_heap w' = w_heap w.
Proof.
  intros Hfull Hp. unfold removeFromBatch. cbn [with_batch grid currentBatchCandidates
    scores undecided selectedCandidates].
  split.
  { destruct (find _ _) as [d|]; [|exact Hp].
    unfold release_departing. destruct (gridRow (deref (w_heap w) d)), (gridCol (deref (w_heap w) d)); try exact Hp.
    apply release_partition; assumption. }
  split; [reflexivity|]. split.
  { intros c. rewrite filter_In. unfold has_id.
    destruct (String.eqb (ID_xA (deref (w_heap w) c)) id) eqn:E; cbn.
    - apply String.eqb_eq in E. split; [intros [_ H]; discriminate | intros [_ H]; contradiction].
    - apply String.eqb_neq in E. split; [intros [H _]; split; assumption | intros [H _]; split; [exact H | reflexivity]]. }
  split.
  { intros d r k Hf Hr Hk Hin. rewrite Hf. unfold release_departing. rewrite Hr, Hk.
    apply (release_frees full); assumption. }
  repeat split.
Qed.

Lemma removeFromBatch_frees_cell_witness :
  NoDup (all_coords 3 3) /\ grid_partition (all_coords 3 3) (grid replace_session) /\
  let '(n, s', w') := removeFromBatch replace_world replace_session "a" 5 in
  grid_partition (all_coords 3 3) (grid s') /\
  n = length (currentBatchCandidates s') /\
  (forall c, In c (currentBatchCandidates s') <->
             In c (currentBatchCandidates replace_session) /\
             ID_xA (deref (w_heap replace_world) c) <> "a"%string) /\
  (forall d r k, find (has_id (w_heap replace_world) "a") (currentBatchCandidates replace_session)
                 = Some d ->
     gridRow (deref (w_heap replace_world) d) = Some r ->
     gridCol (deref (w_heap replace_world) d) = Some k ->
     In (r, k) (all_coords 3 3) ->
     ~ In (r, k) (map fst (cells (grid s'))) /\ In (r, k) (availableCells (grid s'))) /\
  scores s' = scores replace_session /\ undecided s' = undecided replace_session /\
  selectedCandidates s' = selectedCandidates replace_session /\
  w_heap w' = w_heap replace_world.
Proof.
  assert (Hn : NoDup (all_coords 3 3)) by apply all_coords_nodup.
  assert (Hp : grid_partition (all_coords 3 3) (grid replace_session)).
  { apply assign_partition; [exact Hn|]. unfold grid_partition. reflexivity. }
  split; [exact Hn|]. split; [exact Hp|].
  exact (removeFromBatch_frees_cell replace_world replace_session "a" 5 (all_coords 3 3) Hn Hp).
Defined.

(** ** Mass scoring *)

Lemma release_cells_incl (g : Grid) (r k : Z) :
  incl (cells (releaseGridCell r k g)) (cells g).
Proof.
  unfold releaseGridCell. destruct (map_has coord_eqb (r, k) (cells g)); cbn [cells];
    [intros p Hp; apply filter_In in Hp; exact (proj1 Hp) | apply incl_refl].
Qed.

Lemma release_cells_of_spec (id : string) (g : Grid) :
  incl (cells (release_cells_of id g)) (cells g) /\
  (forall p, In p (cells (release_cells_of id g)) -> snd p <> id).
Proof.
  unfold release_cells_of.
  enough (forall L g0, incl (cells g0) (cells g) ->
            (forall p, In p (cells g0) -> snd p = id -> In p L) ->
            let g1 := fold_left (fun g e => if String.eqb (snd e) id
                                             then releaseGridCell (fst (fst e)) (snd (fst e)) g
                                             else g) L g0 in
            incl (cells g1) (cells g) /\ (forall p, In p (cells g1) -> snd p <> id)) as H.
  { apply H; [apply incl_refl | intros p Hp _; exact Hp]. }
  induction L as [|e L IH]; intros g0 Hinc Hinv; cbn [fold_left]; cbv beta.
  - split; [exact Hinc|]. intros p Hp Hs. exact (Hinv p Hp Hs).
  - apply IH.
    + match goal with |- context [if ?b then _ else _] => destruct b end; [|exact Hinc].
      eapply incl_tran; [apply release_cells_incl | exact Hinc].
    + match goal with |- context [if ?b then _ else _] => destruct b eqn:Ee end.
      * intros p Hp Hs. pose proof (release_cells_incl g0 _ _ p Hp) as Hp0.
        destruct (Hinv p Hp0 Hs) as [<-|HL]; [|exact HL]. exfalso.
        destruct e as [[r k] x]. cbn [fst snd] in Hp.
        unfold releaseGridCell in Hp.
        destruct (map_has coord_eqb (r, k) (cells g0)) eqn:Eh.
        -- cbn [cells] in Hp. unfold map_delete in Hp. apply filter_In in Hp as [_ Hp].
           cbn [fst] in Hp. rewrite (proj2 (coord_eqb_eq (r, k) (r, k)) eq_refl) in Hp.
           discriminate.
        -- assert (map_has coord_eqb (r, k) (cells g0) = true)
             by (apply map_has_coord, in_map_iff; exists ((r, k), x); split; [reflexivity | exact Hp0]).
           congruence.
      * intros p Hp Hs. destruct (Hinv p Hp Hs) as [<-|HL]; [|exact HL].
        apply String.eqb_neq in Ee. contradiction.
Qed.

Lemma release_ids_spec (ids : list string) (g : Grid) :
  incl (cells (fold_left (fun g id => release_cells_of id g) ids g)) (cells g) /\
  (forall p, In p (cells (fold_left (fun g id => release_cells_of id g) ids g)) ->
             ~ In (snd p) ids).
Proof.
  revert g. induction ids as [|id ids IH]; intros g; cbn [fold_left].
  - split; [apply incl_refl | intros p _ []].
  - destruct (IH (release_cells_of id g)) as [Hinc Hno].
    destruct (release_cells_of_spec id g) as [Hinc1 Hno1].
    split; [eapply incl_tran; [exact Hinc | exact Hinc1]|].
    intros p Hp [Heq|Hin].
    + exact (Hno1 p (Hinc p Hp) (eq_sym Heq)).
    + exact (Hno p Hp Hin).
Qed.

Lemma release_ids_partition (full : list Coord) (ids : list string) (g : Grid) :
  NoDup full -> grid_partition full g ->
  grid_partition full (fold_left (fun g id => release_cells_of id g) ids g).
Proof.
  intros Hfull. revert g. induction ids as [|id ids IH]; intros g Hp; cbn [fold_left]; [exact Hp|].
  apply IH. unfold release_cells_of. generalize (cells g) as L. intros L. revert g Hp.
  induction L as [|e L IHL]; intros g0 Hp; cbn [fold_left]; cbv beta; [exact Hp|].
  apply IHL. match goal with |- context [if ?b then _ else _] => destruct b end;
    [apply release_partition; assumption | exact Hp].
Qed.

Lemma mass_fold_get (h : Heap) (wave : Z) (sc : jval) (now : Z) (k : string) :
  forall (l : list loc) acc,
  map_get String.eqb k (fst (fst (fold_left (mass_step h wave sc now) l acc)))
  = if existsb (fun c => String.eqb (ID_xA (deref h c)) k) l
    then Some (mkScoreEntry sc now wave true)
    else map_get String.eqb k (fst (fst acc)).
Proof.
  induction l as [|c l IH]; intros [[m n] ids]; cbn [fold_left existsb]; [reflexivity|].
  rewrite IH. cbn [mass_step fst]. rewrite map_get_set.
  destruct (String.eqb (ID_xA (deref h c)) k); cbn [orb];
    [destruct (existsb _ l); reflexivity | reflexivity].
Qed.

(** X17: massScoreByAttribute: every candidate of the searched list
    ([allNodes], or the selection) whose root (or class) attribute matches
    ends up with the entry [{score, timestamp, waveNumber: currentBatchIndex +
    1, massScored: true}], overwriting any earlier score; every other id keeps
    its score; [scoredIds] lists the matched ids; none of them is left in the
    current batch or on a grid cell; and the grid keeps partitioning the
    coordinate space. *)
Theorem massScoreByAttribute_effects (w : World) (s : Session) (ty : string) (v sc : jval)
    (nodes : option (list loc)) (now : Z) :
  let '(res, s', w') := massScoreByAttribute w s ty v sc nodes now in
  scoredIds res
  = map (fun c => ID_xA (deref (w_heap w) c))
      (filter (fun c => attr_matches ty v (deref (w_heap w) c))
         (match nodes with Some l => l | None => selectedCandidates s end)) /\
  (forall c, In c (match nodes with Some l => l | None => selectedCandidates s end) ->
     attr_matches ty v (deref (w_heap w) c) = true ->
     map_get String.eqb (ID_xA (deref (w_heap w) c)) (scores s')
     = Some (mkScoreEntry sc now (currentBatchIndex s + 1) true)) /\
  (forall k, ~ In k (scoredIds res) ->
     map_get String.eqb k (scores s') = map_get String.eqb k (scores s)) /\
  (forall c, In c (currentBatchCandidates s') -> ~ In (ID_xA (deref (w_heap w) c)) (scoredIds res)) /\
  (forall p, In p (cells (grid s')) -> ~ In (snd p) (scoredIds res)) /\
  (forall full, NoDup full -> grid_partition full (grid s) -> grid_partition full (grid s')).
Proof.
  unfold massScoreByAttribute.
  set (h := w_heap w).
  set (cands := match nodes with Some l => l | None => selectedCandidates s end).
  set (matching := filter (fun c => attr_matches ty v (deref h c)) cands).
  set (wave := currentBatchIndex s + 1).
  pose proof (mass_fold_ids h wave sc now matching (scores s, O, [])) as Hids.
  pose proof (fun k => mass_fold_get h wave sc now k matching (scores s, O, [])) as Hget.
  destruct (fold_left (mass_step h wave sc now) matching (scores s, O, [])) as [[m n] ids] eqn:Ef.
  cbn [fst snd app] in Hids, Hget. subst ids.
  set (ids := map (fun c => ID_xA (deref h c)) matching).
  set (g := fold_left (fun g id => release_cells_of id g) ids (grid s)).
  set (batch := filter (fun c => negb (set_has (ID_xA (deref h c)) ids)) (currentBatchCandidates s)).
  set (s1 := with_batch (with_scores s m) batch g).
  assert (Hs : forall s2, s2 = s1 \/ s2 = with_completedAt s1 (Some now) ->
            scores s2 = m /\ currentBatchCandidates s2 = batch /\ grid s2 = g)
    by (intros s2 [->| ->]; repeat split).
  destruct (Hs (if evaluation_complete s1 then with_completedAt s1 (Some now) else s1))
    as [Hsc [Hb Hg]]; [destruct (evaluation_complete s1); [right|left]; reflexivity|].
  cbn [scoredIds]. rewrite Hsc, Hb, Hg.
  split; [reflexivity|]. split.
  { intros c Hc Hm. rewrite Hget.
    replace (existsb _ matching) with true; [reflexivity|]. symmetry.
    apply existsb_exists. exists c. split; [apply filter_In; split; assumption | apply String.eqb_refl]. }
  split.
  { intros k Hk. rewrite Hget. destruct (existsb _ matching) eqn:E; [|reflexivity].
    exfalso. apply Hk. apply existsb_exists in E as [c [Hc E]]. apply String.eqb_eq in E.
    subst k. exact (in_map (fun c => ID_xA (deref h c)) _ _ Hc). }
  split.
  { intros c Hc Hin. unfold batch in Hc. apply filter_In in Hc as [_ Hc].
    unfold set_has in Hc.
    assert (existsb (String.eqb (ID_xA (deref h c))) ids = true)
      by (apply existsb_exists; exists (ID_xA (deref h c)); split; [exact Hin | apply String.eqb_refl]).
    rewrite H in Hc. discriminate. }
  split; [apply release_ids_spec|].
  intros full Hfull Hp. apply release_ids_partition; assumption.
Qed.

(** ** Saving and resuming *)

Lemma map_has_false_notin {K V} (eqb : K -> K -> bool)
    (Heqb : forall a b, eqb a b = true <-> a = b) (k : K) (m : list (K * V)) :
  ~ In k (map fst m) -> map_has eqb k m = false.
Proof.
  intros Hn. unfold map_has. destruct (existsb _ m) eqn:E; [|reflexivity].
  exfalso. apply existsb_exists in E as [[k' v] [Hin E]]. apply Heqb in E. cbn in E. subst k'.
  apply Hn, in_map_iff. exists (k, v). split; [reflexivity | exact Hin].
Qed.

Lemma map_of_entries_nodup {K V} (eqb : K -> K -> bool)
    (Heqb : forall a b, eqb a b = true <-> a = b) (l : list (K * V)) :
  NoDup (map fst l) -> map_of_entries eqb l = l.
Proof.
  unfold map_of_entries.
  enough (forall acc, NoDup (map fst (app acc l)) ->
            fold_left (fun m p => map_set eqb (fst p) (snd p) m) l acc = app acc l) as H.
  { intros Hn. exact (H [] Hn). }
  induction l as [|[k v] l IH]; intros acc Hn; cbn [fold_left]; [apply eq_sym, app_nil_r|].
  rewrite map_app in Hn. cbn [map fst] in Hn.
  assert (Hk : ~ In k (map fst acc)).
  { intros Hin. apply NoDup_remove_2 in Hn. apply Hn, in_or_app. left. exact Hin. }
  cbn [fst snd].
  replace (map_set eqb k v acc) with (app acc [(k, v)])
    by (unfold map_set; rewrite (map_has_false_notin eqb Heqb k acc Hk); reflexivity).
  rewrite IH; [rewrite <- app_assoc; reflexivity|].
  rewrite <- app_assoc, map_app. cbn. exact Hn.
Qed.

Lemma set_of_list_nodup (l : list string) : NoDup l -> set_of_list l = l.
Proof.
  unfold set_of_list.
  enough (forall acc, NoDup (app acc l) -> fold_left (fun s x => set_add x s) l acc = app acc l)
    as H by (intros Hn; exact (H [] Hn)).
  induction l as [|x l IH]; intros acc Hn; cbn [fold_left]; [apply eq_sym, app_nil_r|].
  assert (Hx : set_has x acc = false).
  { unfold set_has. destruct (existsb _ acc) eqn:E; [|reflexivity].
    apply existsb_exists in E as [y [Hy E]]. apply String.eqb_eq in E. subst y.
    apply NoDup_remove_2 in Hn. exfalso. apply Hn, in_or_app. left. exact Hy. }
  unfold set_add. rewrite Hx, IH; [rewrite <- app_assoc; reflexivity|].
  rewrite <- app_assoc. exact Hn.
Qed.

Lemma coord_eqb_iff (a b : Coord) : coord_eqb a b = true <-> a = b.
Proof. apply coord_eqb_eq. Qed.

Lemma string_eqb_iff (a b : string) : String.eqb a b = true <-> a = b.
Proof. apply String.eqb_eq. Qed.

Lemma nodup_map_inj {A B} (f : A -> B) (l : list A) (a b : A) :
  NoDup (map f l) -> In a l -> In b l -> f a = f b -> a = b.
Proof.
  induction l as [|x l IH]; intros Hn Ha Hb Hf; [destruct Ha|].
  cbn in Hn. inversion Hn as [|? ? Hnot Hn']; subst.
  destruct Ha as [<-|Ha], Hb as [<-|Hb]; try reflexivity.
  - exfalso. apply Hnot. rewrite Hf. apply in_map, Hb.
  - exfalso. apply Hnot. rewrite <- Hf. apply in_map, Ha.
  - exact (IH Hn' Ha Hb Hf).
Qed.

Lemma candidate_map_resolves (h : Heap) (all : list loc) (c : loc) :
  NoDup (map (fun c => ID_xA (deref h c)) all) -> In c all ->
  map_get String.eqb (ID_xA (deref h c)) (candidate_map h all) = Some c.
Proof.
  intros Hn Hc.
  assert (Hhas : map_has String.eqb (ID_xA (deref h c)) (candidate_map h all) = true).
  { unfold candidate_map. rewrite candidate_map_has. cbn [map_has existsb orb].
    apply existsb_exists. exists c. split; [exact Hc | apply String.eqb_refl]. }
  apply map_has_get in Hhas as [l Hl].
  pose proof (candidate_map_sound h all _ l Hl) as [Hla Hid].
  rewrite Hl. f_equal. exact (nodup_map_inj _ all l c Hn Hla Hc Hid).
Qed.

(** X18: saveSession then loadSession: a session that is not completed, whose
    selected candidates all come from the dataset passed to [loadSession]
    (their ids being the session's [selectedIds] and distinct across the
    dataset), and whose maps have no duplicate keys, is restored with every
    field equal to the saved one except the current batch, which
    [loadSession] rebuilds from the dataset. *)
Theorem save_load_roundtrip (w : World) (s : Session) (now : Z) (all : list loc) :
  completedAt s = None ->
  NoDup (map (fun c => ID_xA (deref (w_heap w) c)) all) ->
  incl (selectedCandidates s) all ->
  selectedIds s = map (fun c => ID_xA (deref (w_heap w) c)) (selectedCandidates s) ->
  NoDup (map fst (scores s)) -> NoDup (undecided s) ->
  NoDup (map fst (cells (grid s))) -> spacing (grid s) <> 0 ->
  exists s2 w2, loadSession (saveSession w s now) all = (Some s2, w2) /\
    with_batch s2 (currentBatchCandidates s) (grid s2) = s.
Proof.
  intros Hc Hall Hsel Hids Hsc Hun Hcells Hsp.
  unfold loadSession, saveSession, set_store. cbn [w_store w_heap serialize
    p_completedAt p_selectedIds p_grid p_scores p_undecided p_id p_batchSize
    p_currentBatchIndex p_startedAt p_config p_currentBatchData].
  rewrite Hc.
  set (cm := candidate_map (w_heap w) all).
  assert (Hres : flat_map (fun id => match map_get String.eqb id cm with
                                     | Some c => [c] | None => [] end) (selectedIds s)
                 = selectedCandidates s).
  { rewrite Hids. clear Hids. induction (selectedCandidates s) as [|c sel IH]; [reflexivity|].
    cbn [map flat_map]. unfold cm. rewrite candidate_map_resolves
      by (first [exact Hall | apply Hsel; left; reflexivity]).
    cbn [app]. f_equal. apply IH. intros x Hx. apply Hsel. right. exact Hx. }
  rewrite Hres.
  replace (10 * Z.of_nat (length (selectedCandidates s)) <? 9 * Z.of_nat (length (selectedIds s)))
    with false
    by (rewrite Hids, length_map; symmetry; apply Z.ltb_ge; lia).
  destruct (restore_batch cm (w_heap w) _ []) as [h2 batch].
  eexists. eexists. split; [reflexivity|].
  rewrite (map_of_entries_nodup _ string_eqb_iff _ Hsc).
  rewrite (map_of_entries_nodup _ coord_eqb_iff _ Hcells).
  rewrite (set_of_list_nodup _ Hun).
  apply Z.eqb_neq in Hsp. rewrite Hsp.
  destruct s as [sid sel sids bs idx cb sc un st ca [gc ga gs gsp] cfg].
  cbn in *. subst ca. reflexivity.
Qed.

Lemma save_load_roundtrip_witness :
  completedAt replace_session = None /\
  NoDup (map (fun c => ID_xA (deref (w_heap replace_world) c)) [O; 1%nat]) /\
  incl (selectedCandidates replace_session) [O; 1%nat] /\
  selectedIds replace_session
  = map (fun c => ID_xA (deref (w_heap replace_world) c)) (selectedCandidates replace_session) /\
  NoDup (map fst (scores replace_session)) /\ NoDup (undecided replace_session) /\
  NoDup (map fst (cells (grid replace_session))) /\ spacing (grid replace_session) <> 0 /\
  exists s2 w2, loadSession (saveSession replace_world replace_session 7) [O; 1%nat]
                = (Some s2, w2) /\
    with_batch s2 (currentBatchCandidates replace_session) (grid s2) = replace_session.
Proof.
  assert (H1 : completedAt replace_session = None) by reflexivity.
  assert (H2 : NoDup (map (fun c => ID_xA (deref (w_heap replace_world) c)) [O; 1%nat])).
  { vm_compute. constructor; [intros [H|[]]; discriminate | constructor; [intros [] | constructor]]. }
  assert (H3 : incl (selectedCandidates replace_session) [O; 1%nat]) by apply incl_refl.
  assert (H4 : selectedIds replace_session
               = map (fun c => ID_xA (deref (w_heap replace_world) c))
                   (selectedCandidates replace_session)) by reflexivity.
  assert (H5 : NoDup (map fst (scores replace_session))) by constructor.
  assert (H6 : NoDup (undecided replace_session)) by (repeat constructor; intros []).
  assert (H7 : NoDup (map fst (cells (grid replace_session)))) by (vm_compute; repeat constructor; intros []).
  assert (H8 : spacing (grid replace_session) <> 0) by (vm_compute; discriminate).
  do 8 (split; [assumption|]).
  exact (save_load_roundtrip replace_world replace_session 7 [O; 1%nat] H1 H2 H3 H4 H5 H6 H7 H8).
Defined.

(** ** Ordering by AI score *)

Section InsertionSort.
Variable cmp : loc -> loc -> Z.
Variable R : loc -> loc -> Prop.
Hypothesis cmp_le : forall a b, cmp a b <= 0 -> R a b.
Hypothesis cmp_gt : forall a b, 0 < cmp a b -> R b a.
Hypothesis R_trans : forall a b c, R a b -> R b c -> R a c.

Lemma sort_insert_sorted (x : loc) (l : list loc) :
  StronglySorted R l -> StronglySorted R (sort_insert cmp x l).
Proof.
  induction l as [|y l IH]; intros Hs; cbn [sort_insert].
  - repeat constructor.
  - apply StronglySorted_inv in Hs as [Hs Hy].
    destruct (cmp x y <=? 0) eqn:E.
    + apply Z.leb_le in E. constructor; [constructor; assumption|].
      constructor; [exact (cmp_le _ _ E)|].
      eapply Forall_impl; [|exact Hy]. intros z Hz. exact (R_trans _ _ _ (cmp_le _ _ E) Hz).
    + apply Z.leb_gt in E. constructor; [exact (IH Hs)|].
      apply Forall_forall. intros z Hz.
      apply (Permutation_in _ (sort_insert_perm cmp x l)) in Hz as [<-|Hz].
      * exact (cmp_gt _ _ E).
      * exact (proj1 (Forall_forall _ l) Hy z Hz).
Qed.

Lemma js_sort_sorted (l : list loc) : StronglySorted R (js_sort cmp l).
Proof.
  induction l as [|x l IH]; cbn [js_sort]; [constructor | apply sort_insert_sorted, IH].
Qed.
End InsertionSort.

Lemma sorted_prefix_suffix {A} (R : A -> A -> Prop) (l : list A) (m : nat) (x y : A) :
  StronglySorted R l -> In x (firstn m l) -> In y (skipn m l) -> R x y.
Proof.
  revert m. induction l as [|a l IH]; intros m Hs Hx Hy; [destruct m; destruct Hx|].
  apply StronglySorted_inv in Hs as [Hs Ha].
  destruct m as [|m]; [destruct Hx|].
  cbn in Hx, Hy. destruct Hx as [<-|Hx].
  - apply (proj1 (Forall_forall _ l) Ha). rewrite <- (firstn_skipn m l).
    apply in_or_app. right. exact Hy.
  - exact (IH m Hs Hx Hy).
Qed.

Lemma slice0_firstn {A} (l : list A) (e : Z) : exists m, slice0 l e = firstn m l.
Proof. unfold slice0. destruct (e <? 0); eexists; reflexivity. Qed.

Lemma order_cut (R : loc -> loc -> Prop) (ord el : list loc) (e : Z) (x y : loc) :
  StronglySorted R ord -> Permutation ord el ->
  In x (slice0 ord e) -> In y el -> ~ In y (slice0 ord e) -> R x y.
Proof.
  intros Hs Hp Hx Hy Hn. destruct (slice0_firstn ord e) as [m Hm]. rewrite Hm in Hx, Hn.
  apply (Permutation_in _ (Permutation_sym Hp)) in Hy.
  rewrite <- (firstn_skipn m ord) in Hy. apply in_app_or in Hy as [Hy|Hy]; [contradiction|].
  exact (sorted_prefix_suffix R ord m x y Hs Hx Hy).
Qed.

(** X19: filterCandidates with the 'top-ai' method keeps candidates with the
    highest AI scores: a filtered-in candidate left out of the selection never
    has a higher [parseInt(AI_Rank_xB) || 0] than a selected one; with
    'bottom-ai' never a lower one. *)
Theorem filterCandidates_ai_order (h : Heap) (nodes : list loc) (o : Options) (now : Z) :
  (selectionMethod o = "top-ai"%string ->
   forall x y, In x (filterCandidates h nodes o now) -> In y (eligible h nodes o) ->
   ~ In y (filterCandidates h nodes o now) -> ai_key h y <= ai_key h x) /\
  (selectionMethod o = "bottom-ai"%string ->
   forall x y, In x (filterCandidates h nodes o now) -> In y (eligible h nodes o) ->
   ~ In y (filterCandidates h nodes o now) -> ai_key h x <= ai_key h y).
Proof.
  unfold filterCandidates, applySelectionMethod. cbn [length app].
  split; intros Hm; rewrite Hm; cbn [String.eqb Ascii.eqb Bool.eqb andb];
    intros x y; unfold arr; cbn [list_set nth]; intros Hx Hy Hn.
  - eapply (order_cut (fun a b => ai_key h b <= ai_key h a)
             (js_sort (fun a b => ai_key h b - ai_key h a) (eligible h nodes o))
             (eligible h nodes o));
      [apply js_sort_sorted; intros; lia | apply js_sort_perm | exact Hx | exact Hy | exact Hn].
  - eapply (order_cut (fun a b => ai_key h a <= ai_key h b)
             (js_sort (fun a b => ai_key h a - ai_key h b) (eligible h nodes o))
             (eligible h nodes o));
      [apply js_sort_sorted; intros; lia | apply js_sort_perm | exact Hx | exact Hy | exact Hn].
Qed.

Lemma filterCandidates_ai_order_witness :
  selectionMethod top_one_options = "top-ai"%string /\
  In 1%nat (filterCandidates ai_pair_heap [O; 1%nat] top_one_options 0) /\
  In O (eligible ai_pair_heap [O; 1%nat] top_one_options) /\
  ~ In O (filterCandidates ai_pair_heap [O; 1%nat] top_one_options 0) /\
  ai_key ai_pair_heap O <= ai_key ai_pair_heap 1.
Proof.
  assert (Hm : selectionMethod top_one_options = "top-ai"%string) by reflexivity.
  assert (E : filterCandidates ai_pair_heap [O; 1%nat] top_one_options 0 = [1%nat])
    by (vm_compute; reflexivity).
  assert (Hx : In 1%nat (filterCandidates ai_pair_heap [O; 1%nat] top_one_options 0))
    by (rewrite E; left; reflexivity).
  assert (Hy : In O (eligible ai_pair_heap [O; 1%nat] top_one_options))
    by (vm_compute; left; reflexivity).
  assert (Hn : ~ In O (filterCandidates ai_pair_heap [O; 1%nat] top_one_options 0))
    by (rewrite E; intros [H|[]]; discriminate).
  split; [exact Hm|]. split; [exact Hx|]. split; [exact Hy|]. split; [exact Hn|].
  exact (proj1 (filterCandidates_ai_order ai_pair_heap [O; 1%nat] top_one_options 0)
           Hm 1%nat O Hx Hy Hn).
Defined.

(** ** The next batch with grid positions *)

Lemma place_batch_partition (full : list Coord) (h : Heap) (g : Grid) (cs : list loc)
    (draws : list nat) :
  NoDup full -> grid_partition full g ->
  grid_partition full (snd (fst (place_batch h g cs draws))).
Proof.
  intros Hfull. revert h g draws. induction cs as [|c rest IH]; intros h g draws Hp;
    cbn [place_batch]; [exact Hp|].
  pose proof (assign_partition full g (ID_xA (deref h c)) (hd O draws) Hfull Hp) as Hp1.
  destruct (assignGridCell (ID_xA (deref h c)) (hd O draws) g) as [cell g1]. cbn [alloc snd] in *.
  specialize (IH (app h [match cell with Some (r, k) => with_grid_pos (deref h c) (Some r) (Some k)
                                       | None => deref h c end]) g1 (tl draws) Hp1).
  destruct (place_batch _ g1 rest (tl draws)) as [[h' g'] ls]. exact IH.
Qed.

Lemma partition_avail_nodup (full : list Coord) (g : Grid) :
  NoDup full -> grid_partition full g -> NoDup (availableCells g).
Proof.
  intros Hfull Hp. unfold grid_partition in Hp.
  eapply NoDup_app_remove_l, Permutation_NoDup; [symmetry; exact Hp | exact Hfull].
Qed.

(** X20: getNextBatchWithGridPositions: the caller's heap records are unchanged;
    the batch, which becomes the session's current batch, consists of fresh
    records, at most [batchSize] of them; each copies an unprocessed selected
    candidate, with the grid cell it was given if any; the cells given are
    pairwise distinct free cells of the former grid; and the grid keeps
    partitioning the coordinate space. *)
Theorem getNextBatchWithGridPositions_fresh (w : World) (s : Session) (draws : list nat)
    (now : Z) (full : list Coord) :
  Forall (fun c => (c < length (w_heap w))%nat) (selectedCandidates s) ->
  NoDup full -> grid_partition full (grid s) ->
  let '(batch, s', w') := getNextBatchWithGridPositions w s draws now in
  firstn (length (w_heap w)) (w_heap w') = w_heap w /\
  currentBatchCandidates s' = batch /\
  batch = seq (length (w_heap w)) (length batch) /\
  (0 <= batchSize s -> (length batch <= Z.to_nat (batchSize s))%nat) /\
  grid_partition full (grid s') /\
  exists cl : list (option Coord),
    Forall2 (fun l cell => exists c, In c (selectedCandidates s) /\
               unprocessed (w_heap w) s c = true /\
               deref (w_heap w') l = copy_at (deref (w_heap w) c) cell) batch cl /\
    NoDup (somes cl) /\ incl (somes cl) (availableCells (grid s)).
Proof.
  intros Hv Hfull Hp. unfold getNextBatchWithGridPositions.
  set (h := w_heap w).
  set (cs := slice0 (filter (unprocessed h s) (selectedCandidates s)) (batchSize s)).
  assert (Hinc : incl cs (filter (unprocessed h s) (selectedCandidates s))) by apply slice0_incl.
  assert (Hcs : Forall (fun c => (c < length h)%nat) cs).
  { apply Forall_forall. intros c Hc. apply Hinc, filter_In in Hc as [Hc _].
    exact (proj1 (Forall_forall _ _) Hv c Hc). }
  pose proof (place_batch_spec h (grid s) cs draws Hcs (partition_avail_nodup full _ Hfull Hp)) as Hs.
  pose proof (place_batch_partition full h (grid s) cs draws Hfull Hp) as Hgp.
  destruct (place_batch h (grid s) cs draws) as [[h' g'] ls].
  destruct Hs as [cl [Hl [Hh [Hls [Hnd [Hincl _]]]]]].
  cbn [with_batch currentBatchCandidates grid saveSession set_store w_heap snd fst] in *.
  split; [rewrite Hh, firstn_app, Nat.sub_diag, firstn_all; cbn; apply app_nil_r|].
  split; [reflexivity|].
  split; [rewrite Hls, length_seq; reflexivity|].
  split.
  { intros Hb. rewrite Hls, length_seq. unfold cs, slice0.
    destruct (batchSize s <? 0) eqn:E; [apply Z.ltb_lt in E; lia|].
    rewrite length_firstn. lia. }
  split; [exact Hgp|].
  exists cl. split; [|split; assumption].
  pose proof (placed_copies h cs cl Hl) as Hpc. rewrite <- Hh, <- Hls in Hpc.
  eapply Forall2_impl; [|exact Hpc]. intros l cell [c [Hc Hd]]. exists c.
  apply Hinc, filter_In in Hc as [Hc Hu]. split; [exact Hc|]. split; [exact Hu | exact Hd].
Qed.

Lemma getNextBatchWithGridPositions_fresh_witness :
  Forall (fun c => (c < length (w_heap replace_world))%nat) (selectedCandidates replace_session) /\
  NoDup (all_coords 3 3) /\ grid_partition (all_coords 3 3) (grid replace_session) /\
  let '(batch, s', w') := getNextBatchWithGridPositions replace_world replace_session [2%nat] 9 in
  firstn (length (w_heap replace_world)) (w_heap w') = w_heap replace_world /\
  currentBatchCandidates s' = batch /\
  batch = seq (length (w_heap replace_world)) (length batch) /\
  (0 <= batchSize replace_session -> (length batch <= Z.to_nat (batchSize replace_session))%nat) /\
  grid_partition (all_coords 3 3) (grid s') /\
  exists cl : list (option Coord),
    Forall2 (fun l cell => exists c, In c (selectedCandidates replace_session) /\
               unprocessed (w_heap replace_world) replace_session c = true /\
               deref (w_heap w') l = copy_at (deref (w_heap replace_world) c) cell) batch cl /\
    NoDup (somes cl) /\ incl (somes cl) (availableCells (grid replace_session)).
Proof.
  assert (Hv : Forall (fun c => (c < length (w_heap replace_world))%nat)
                 (selectedCandidates replace_session)) by (repeat constructor; simpl; lia).
  assert (Hn : NoDup (all_coords 3 3)) by apply all_coords_nodup.
  assert (Hp : grid_partition (all_coords 3 3) (grid replace_session)).
  { apply assign_partition; [exact Hn|]. unfold grid_partition. reflexivity. }
  split; [exact Hv|]. split; [exact Hn|]. split; [exact Hp|].
  exact (getNextBatchWithGridPositions_fresh replace_world replace_session [2%nat] 9
           (all_coords 3 3) Hv Hn Hp).
Defined.

(** ** Creating and resuming *)



